(** * Job offers platform: authorization and application lifecycle

    A shallow embedding of the application model
    ([models/Application.js]), the role middleware ([middleware/auth.js])
    and the application routes ([routes/applications.js]) of the
    job-platform backend, together with the part of the MySQL schema
    these rely on, and the properties of the authorization + lifecycle
    core that hold (or fail) on that code.

    In the source tree the three files are found after the file they
    follow: the model in [routes/jobOffers.js] (from [class Application]),
    the middleware in [middleware/validation.js] (from [const auth]), the
    routes in [routes/companies.js] (from [// routes/applications.js]).

    An [async] function is a function from the world it starts in to its
    outcome and the world it leaves.  The world holds the tables, the
    clock, the console, and the outcomes that the coming calls of
    [db.execute] will meet, so that a statement can be rejected at any
    call.  Error objects are their messages. *)

From Stdlib Require Import ZArith String DecimalString.
From stdpp Require Import base option list strings gmap pretty.

Local Open Scope Z_scope.

(** ** JavaScript values *)

(** The values that travel through request bodies, route parameters and
    bind parameters.  Numbers are the integers (ids, counters). *)
#[warnings="-register-all"]
Inductive JSVal : Type :=
| JUndefined
| JNull
| JBool (b : bool)
| JNum (n : Z)
| JStr (s : string)
| JArr (l : list JSVal).

(** A request body or a plain object literal. *)
Abbreviation JSObject := (gmap string JSVal).

(** [o.k]: reading a property that is absent gives [undefined]. *)
Definition prop (o : JSObject) (k : string) : JSVal := default JUndefined (o !! k).

(** [{...o, k: v}] *)
Definition spread_with (o : JSObject) (k : string) (v : JSVal) : JSObject := <[k := v]> o.

(** ToBoolean, as used by [if (x)] and [!x]. *)
Definition truthy (v : JSVal) : bool :=
  match v with
  | JUndefined | JNull => false
  | JBool b => b
  | JNum n => negb (n =? 0)
  | JStr s => negb (String.eqb s "")
  | JArr _ => true
  end.

(** [Array.isArray(v)], giving the elements when it is one. *)
Definition isArray (v : JSVal) : option (list JSVal) :=
  match v with JArr l => Some l | _ => None end.

(** [a.includes(v)] for an array of string literals: strict equality, so
    only a string value can be found.  The matching literal is returned. *)
Definition includes (a : list string) (v : JSVal) : option string :=
  match v with
  | JStr s => if bool_decide (s ∈ a) then Some s else None
  | _ => None
  end.

(** ** The relational store *)

(** Rows of the tables of [schema.sql] / [createTables], restricted to the
    columns the application core reads or writes. *)
Record CompanyRow := mkCompany { c_id : Z; c_user_id : Z }.
Record JobOfferRow := mkJobOffer { jo_id : Z; jo_company_id : Z }.
Record ApplicationRow := mkApplicationRow {
  a_id : Z;
  a_job_offer_id : Z;
  a_user_id : Z;
  a_cover_letter : JSVal;
  a_resume_url : JSVal;
  a_status : string;
  a_applied_at : Z;
  a_updated_at : Z }.
Record NotificationRow := mkNotification {
  n_user_id : Z;
  n_title : string;
  n_message : string;
  n_notification_type : string }.

(** The world a request handler runs in: the tables, the AUTO_INCREMENT
    counter of [applications], the value of CURRENT_TIMESTAMP, the
    outcomes that the next calls of [db.execute] will meet, and what was
    written with [console.error].  An outcome [Some msg] means that the
    call is rejected with that message, for any reason the tables below do
    not decide (connection lost, a foreign key, a lock timeout); [None],
    or no entry, that the statement is executed. *)
Record World := mkWorld {
  companies : list CompanyRow;
  job_offers : list JobOfferRow;
  applications : list ApplicationRow;
  notifications : list NotificationRow;
  auto_increment : Z;
  now : Z;
  faults : list (option string);
  console : list string }.

Definition set_applications (f : list ApplicationRow → list ApplicationRow) (w : World) : World :=
  mkWorld (companies w) (job_offers w) (f (applications w)) (notifications w)
          (auto_increment w) (now w) (faults w) (console w).
Definition set_notifications (f : list NotificationRow → list NotificationRow) (w : World) : World :=
  mkWorld (companies w) (job_offers w) (applications w) (f (notifications w))
          (auto_increment w) (now w) (faults w) (console w).
Definition set_auto_increment (n : Z) (w : World) : World :=
  mkWorld (companies w) (job_offers w) (applications w) (notifications w)
          n (now w) (faults w) (console w).
Definition set_faults (fs : list (option string)) (w : World) : World :=
  mkWorld (companies w) (job_offers w) (applications w) (notifications w)
          (auto_increment w) (now w) fs (console w).
Definition set_now (t : Z) (w : World) : World :=
  mkWorld (companies w) (job_offers w) (applications w) (notifications w)
          (auto_increment w) t (faults w) (console w).
Definition console_error (line : string) (w : World) : World :=
  mkWorld (companies w) (job_offers w) (applications w) (notifications w)
          (auto_increment w) (now w) (faults w) (console w ++ [line]).

(** No call of [db.execute] is going to be rejected by the driver. *)
Definition healthy (w : World) : Prop := faults w = [].

(** ** Asynchronous computations that may throw *)

Inductive Outcome (A : Type) : Type :=
| Return (a : A)
| Throw (msg : string).
Arguments Return {A} a.
Arguments Throw {A} msg.

(** An [async] function: it runs from a world, ends by returning or by
    throwing [new Error(msg)], and leaves a world behind in both cases
    (statements run in autocommit mode: what was written stays written). *)
Definition Async (A : Type) : Type := World → Outcome A * World.

Definition ret {A} (a : A) : Async A := λ w, (Return a, w).
Definition throw {A} (msg : string) : Async A := λ w, (Throw msg, w).
Definition bind {A B} (m : Async A) (k : A → Async B) : Async B :=
  λ w, match m w with
       | (Return a, w') => k a w'
       | (Throw msg, w') => (Throw msg, w')
       end.
(** [try { m } catch (error) { h(error.message) }] *)
Definition try_catch {A} (m : Async A) (h : string → Async A) : Async A :=
  λ w, match m w with
       | (Return a, w') => (Return a, w')
       | (Throw msg, w') => h msg w'
       end.

#[export] Instance Async_ret : MRet Async := @ret.
#[export] Instance Async_bind : MBind Async := λ A B k m, bind m k.

(** ** What [db.execute] does with each statement *)

(** An integer column compared with, or assigned from, a bind parameter:
    numbers as they are, decimal strings converted. *)
Definition sql_int (v : JSVal) : option Z :=
  match v with
  | JNum n => Some n
  | JStr s => Z.of_int <$> NilZero.int_of_string s
  | _ => None
  end.

Definition is_undefined (v : JSVal) : bool :=
  match v with JUndefined => true | _ => false end.

(** Messages of the driver and of the server. *)
Definition ER_BIND_UNDEFINED : string := "Bind parameters must not contain undefined".
Definition ER_TRUNCATED_WRONG_VALUE : string := "Incorrect integer value".
Definition ER_DUP_ENTRY (job_offer_id user_id : Z) : string :=
  "Duplicate entry '" +:+ pretty job_offer_id +:+ "-" +:+ pretty user_id
    +:+ "' for key 'applications.unique_application'".

(** One call of [db.execute(query, params)]: the driver refuses [undefined]
    among the parameters, the call meets the next pending outcome, and
    only then is the statement [run] against the tables. *)
Definition execute {A} (params : list JSVal) (run : Async A) : Async A :=
  λ w, if existsb is_undefined params then (Throw ER_BIND_UNDEFINED, w)
       else match faults w with
            | Some msg :: fs => (Throw msg, set_faults fs w)
            | None :: fs => run (set_faults fs w)
            | [] => run w
            end.

Definition same_id (v : JSVal) (row_id : Z) : bool :=
  match sql_int v with Some n => n =? row_id | None => false end.

(** [SELECT * FROM applications WHERE id = ?] *)
Definition select_application_by_id (id : JSVal) : Async (list ApplicationRow) :=
  execute [id] (λ w, (Return (List.filter (λ r, same_id id (a_id r)) (applications w)), w)).

(** [SELECT * FROM applications WHERE job_offer_id = ? AND user_id = ?] *)
Definition select_application_by_job_and_user (jobOfferId userId : JSVal) : Async (list ApplicationRow) :=
  execute [jobOfferId; userId]
    (λ w, (Return (List.filter (λ r, same_id jobOfferId (a_job_offer_id r) && same_id userId (a_user_id r))
                               (applications w)), w)).

(** [INSERT INTO applications (job_offer_id, user_id, cover_letter, resume_url)
    VALUES (?, ?, ?, ?)]: both integer columns are NOT NULL, and
    [UNIQUE KEY unique_application (job_offer_id, user_id)] is checked by
    the store itself.  The other columns take their defaults.  The
    result is [insertId]. *)
Definition insert_application_row (jobOfferId userId coverLetter resumeUrl : JSVal) : Async Z :=
  λ w, match sql_int jobOfferId, sql_int userId with
       | Some j, Some u =>
           if existsb (λ r, (a_job_offer_id r =? j) && (a_user_id r =? u)) (applications w)
           then (Throw (ER_DUP_ENTRY j u), w)
           else
             let new := mkApplicationRow (auto_increment w) j u coverLetter resumeUrl
                                         "pending" (now w) (now w) in
             (Return (auto_increment w),
              set_auto_increment (auto_increment w + 1) (set_applications (λ t, t ++ [new]) w))
       | _, _ => (Throw ER_TRUNCATED_WRONG_VALUE, w)
       end.

Definition insert_application (jobOfferId userId coverLetter resumeUrl : JSVal) : Async Z :=
  execute [jobOfferId; userId; coverLetter; resumeUrl]
    (insert_application_row jobOfferId userId coverLetter resumeUrl).

Definition with_status (s : string) (t : Z) (r : ApplicationRow) : ApplicationRow :=
  mkApplicationRow (a_id r) (a_job_offer_id r) (a_user_id r) (a_cover_letter r) (a_resume_url r)
                   s (a_applied_at r) t.

(** [UPDATE applications SET status = ?, updated_at = CURRENT_TIMESTAMP WHERE id = ?] *)
Definition update_application_status (status : string) (id : JSVal) : Async unit :=
  execute [JStr status; id]
    (λ w, (Return (),
           set_applications (map (λ r, if same_id id (a_id r) then with_status status (now w) r else r)) w)).

(** [UPDATE applications SET status = ?, updated_at = CURRENT_TIMESTAMP WHERE id IN (?,...,?)] *)
Definition update_application_status_in (status : string) (ids : list JSVal) : Async unit :=
  execute (JStr status :: ids)
    (λ w, (Return (),
           set_applications
             (map (λ r, if existsb (λ id, same_id id (a_id r)) ids then with_status status (now w) r else r))
             w)).

(** [INSERT INTO notifications (user_id, title, message, notification_type)
    VALUES (?, ?, ?, 'application_status')] *)
Definition insert_notification (user_id : Z) (title message : string) : Async unit :=
  execute [JNum user_id; JStr title; JStr message]
    (λ w, (Return (),
           set_notifications (λ t, t ++ [mkNotification user_id title message "application_status"]) w)).

(** [DELETE FROM applications WHERE id = ?] *)
Definition delete_application (id : JSVal) : Async unit :=
  execute [id]
    (λ w, (Return (), set_applications (List.filter (λ r, negb (same_id id (a_id r)))) w)).

(** [UPDATE applications SET <column> = ?, ..., updated_at = CURRENT_TIMESTAMP
    WHERE id = ?], for the assignments [updates] in their order.  The
    table has the two text columns below; any other name is refused by
    the server. *)
Definition assign_column (r : ApplicationRow) (update : string * JSVal) : ApplicationRow :=
  if String.eqb update.1 "cover_letter"
  then mkApplicationRow (a_id r) (a_job_offer_id r) (a_user_id r) update.2 (a_resume_url r)
                        (a_status r) (a_applied_at r) (a_updated_at r)
  else if String.eqb update.1 "resume_url"
  then mkApplicationRow (a_id r) (a_job_offer_id r) (a_user_id r) (a_cover_letter r) update.2
                        (a_status r) (a_applied_at r) (a_updated_at r)
  else r.

Definition with_columns (updates : list (string * JSVal)) (t : Z) (r : ApplicationRow) : ApplicationRow :=
  let r := fold_left assign_column updates r in
  mkApplicationRow (a_id r) (a_job_offer_id r) (a_user_id r) (a_cover_letter r) (a_resume_url r)
                   (a_status r) (a_applied_at r) t.

Definition ER_BAD_FIELD : string := "Unknown column in 'field list'".

Definition update_application_columns (updates : list (string * JSVal)) (id : JSVal) : Async unit :=
  execute (map snd updates ++ [id])
    (λ w, if forallb (λ u, String.eqb u.1 "cover_letter" || String.eqb u.1 "resume_url") updates
          then (Return (),
                set_applications
                  (map (λ r, if same_id id (a_id r) then with_columns updates (now w) r else r)) w)
          else (Throw ER_BAD_FIELD, w)).

(** The row of [SELECT COUNT( * ) as total, SUM(CASE WHEN status = 'pending'
    THEN 1 ELSE 0 END) as pending, ... FROM applications ...]: the values
    of the six columns.  SUM is NULL over no rows. *)
Record StatusCounts := mkStatusCounts {
  sc_total : Z;
  sc_pending : option Z;
  sc_reviewed : option Z;
  sc_interview : option Z;
  sc_accepted : option Z;
  sc_rejected : option Z }.

Definition sql_sum (terms : list Z) : option Z :=
  match terms with
  | [] => None
  | _ => Some (foldr Z.add 0 terms)
  end.

Definition sum_case_status (status : string) (rows : list ApplicationRow) : option Z :=
  sql_sum (map (λ r, if String.eqb (a_status r) status then 1 else 0) rows).

Definition status_counts (rows : list ApplicationRow) : StatusCounts :=
  mkStatusCounts (Z.of_nat (length rows))
                 (sum_case_status "pending" rows) (sum_case_status "reviewed" rows)
                 (sum_case_status "interview" rows) (sum_case_status "accepted" rows)
                 (sum_case_status "rejected" rows).

(** [... FROM applications WHERE job_offer_id = ?] *)
Definition select_status_counts_by_job (jobOfferId : JSVal) : Async StatusCounts :=
  execute [jobOfferId]
    (λ w, (Return (status_counts
                     (List.filter (λ r, same_id jobOfferId (a_job_offer_id r)) (applications w))), w)).




(** [SELECT * FROM companies WHERE id = ?] *)
Definition select_company_by_id (id : JSVal) : Async (list CompanyRow) :=
  execute [id] (λ w, (Return (List.filter (λ c, same_id id (c_id c)) (companies w)), w)).

(** [DELETE FROM companies WHERE id = ?].  The foreign keys
    [job_offers.company_id] and [applications.job_offer_id] are declared
    ON DELETE CASCADE: the job offers of a deleted company go with it, and
    the applications to these job offers with them. *)
Definition delete_company (id : JSVal) : Async unit :=
  execute [id]
    (λ w,
       let deleted_company c := same_id id (c_id c) in
       let deleted_job_offer jo :=
         existsb (λ c, deleted_company c && (c_id c =? jo_company_id jo)) (companies w) in
       let deleted_application a :=
         existsb (λ jo, deleted_job_offer jo && (jo_id jo =? a_job_offer_id a)) (job_offers w) in
       (Return (),
        mkWorld (List.filter (λ c, negb (deleted_company c)) (companies w))
                (List.filter (λ jo, negb (deleted_job_offer jo)) (job_offers w))
                (List.filter (λ a, negb (deleted_application a)) (applications w))
                (notifications w) (auto_increment w) (now w) (faults w) (console w))).

(** ** models/Application.js *)

Module Application.

(** An instance of [class Application]. *)
Record t := mk {
  id : Z;
  jobOfferId : Z;
  userId : Z;
  coverLetter : JSVal;
  resumeUrl : JSVal;
  status : string;
  appliedAt : Z;
  updatedAt : Z }.

(** [constructor(data)] *)
Definition new (data : ApplicationRow) : t :=
  mk (a_id data) (a_job_offer_id data) (a_user_id data) (a_cover_letter data)
     (a_resume_url data) (a_status data) (a_applied_at data) (a_updated_at data).

(** [this.status = newStatus] *)
Definition set_status (s : string) (this : t) : t :=
  mk (id this) (jobOfferId this) (userId this) (coverLetter this) (resumeUrl this)
     s (appliedAt this) (updatedAt this).

Definition validStatuses : list string :=
  ["pending"; "reviewed"; "interview"; "accepted"; "rejected"]%string.

Definition invalid_status_message : string :=
  "Invalid status. Must be one of: " +:+ String.concat ", " validStatuses.

Definition findById (id : JSVal) : Async (option t) :=
  try_catch
    (rows ← select_application_by_id id;
     mret (new <$> head rows))
    (λ message, throw ("Error finding application: " +:+ message)).

Definition findByJobAndUser (jobOfferId userId : JSVal) : Async (option t) :=
  try_catch
    (rows ← select_application_by_job_and_user jobOfferId userId;
     mret (new <$> head rows))
    (λ message, throw ("Error finding application: " +:+ message)).

(** [create], first part: the existence check. *)
Definition create_check (jobOfferId userId : JSVal) : Async unit :=
  existingApplication ← findByJobAndUser jobOfferId userId;
  if existingApplication is Some _
  then throw "You have already applied for this job"
  else mret ().

(** [create], second part: the insert and the read back, in their
    [try] block. *)
Definition create_insert (jobOfferId userId coverLetter resumeUrl : JSVal) : Async (option t) :=
  try_catch
    (insertId ← insert_application jobOfferId userId coverLetter resumeUrl;
     findById (JNum insertId))
    (λ message, throw ("Error creating application: " +:+ message)).

Definition create (applicationData : JSObject) : Async (option t) :=
  let jobOfferId := prop applicationData "jobOfferId" in
  let userId := prop applicationData "userId" in
  let coverLetter := prop applicationData "coverLetter" in
  let resumeUrl := prop applicationData "resumeUrl" in
  create_check jobOfferId userId ;;
  create_insert jobOfferId userId coverLetter resumeUrl.

Definition statusMessages : list (string * string) :=
  [("reviewed", "Your application has been reviewed");
   ("interview", "You have been invited for an interview");
   ("accepted", "Congratulations! Your application has been accepted");
   ("rejected", "Your application has been rejected")]%string.

(** [statusMessages[status]], for the statuses that reach it. *)
Definition statusMessage (status : string) : option string :=
  snd <$> find (λ e, String.eqb (fst e) status) statusMessages.

Definition createStatusNotification (this : t) (status : string) (updatedBy : JSVal) : Async unit :=
  match statusMessage status with
  | None => mret ()
  | Some message =>
      try_catch
        (insert_notification (userId this) "Application Status Update" message)
        (λ error w, (Return (), console_error ("Error creating notification: " +:+ error) w))
  end.

Definition updateStatus (this : t) (newStatus updatedBy : JSVal) : Async t :=
  match includes validStatuses newStatus with
  | None => throw invalid_status_message
  | Some s =>
      try_catch
        (update_application_status s (JNum (id this)) ;;
         let this := set_status s this in
         (if truthy updatedBy then createStatusNotification this s updatedBy else mret ()) ;;
         mret this)
        (λ message, throw ("Error updating application status: " +:+ message))
  end.

Definition delete (this : t) : Async bool :=
  try_catch
    (delete_application (JNum (id this)) ;; mret true)
    (λ message, throw ("Error deleting application: " +:+ message)).


(** [for (const appId of applicationIds) { ... }] of [bulkUpdateStatus] *)
Fixpoint notify_each (applicationIds : list JSVal) (newStatus : string) (updatedBy : JSVal) : Async unit :=
  match applicationIds with
  | [] => mret ()
  | appId :: rest =>
      app ← findById appId;
      (if app is Some app then createStatusNotification app newStatus updatedBy else mret ()) ;;
      notify_each rest newStatus updatedBy
  end.

Definition bulkUpdateStatus (applicationIds newStatus updatedBy : JSVal) : Async bool :=
  match includes validStatuses newStatus with
  | None => throw invalid_status_message
  | Some s =>
      match isArray applicationIds with
      | None | Some [] => throw "Invalid application IDs"
      | Some ids =>
          try_catch
            (update_application_status_in s ids ;;
             (if truthy updatedBy then notify_each ids s updatedBy else mret ()) ;;
             mret true)
            (λ message, throw ("Error bulk updating applications: " +:+ message))
      end
  end.

Definition allowedFields : list string := ["cover_letter"; "resume_url"]%string.

(** The pairs that the loop over [Object.entries(updateData)] keeps.
    Their order is the order of the assignments in the statement, where
    it does not matter: no key comes twice. *)
Definition kept_entries (updateData : JSObject) : list (string * JSVal) :=
  List.filter (λ entry, bool_decide (entry.1 ∈ allowedFields) && negb (is_undefined entry.2))
              (map_to_list updateData).

Definition update (this : t) (updateData : JSObject) : Async (option t) :=
  match kept_entries updateData with
  | [] => throw "No valid fields to update"
  | updates =>
      try_catch
        (update_application_columns updates (JNum (id this)) ;;
         findById (JNum (id this)))
        (λ message, throw ("Error updating application: " +:+ message))
  end.


Definition getJobApplicationStats (jobOfferId : JSVal) : Async StatusCounts :=
  try_catch
    (select_status_counts_by_job jobOfferId)
    (λ message, throw ("Error fetching job application stats: " +:+ message)).

End Application.

(** ** models/Company.js *)

Module Company.

(** An instance of [class Company], with the two fields that the
    ownership of a company rests on. *)
Record t := mk { id : Z; userId : Z }.

(** [constructor(data)] *)
Definition new (data : CompanyRow) : t := mk (c_id data) (c_user_id data).

Definition findById (id : JSVal) : Async (option t) :=
  try_catch
    (rows ← select_company_by_id id;
     mret (new <$> head rows))
    (λ message, throw ("Error finding company: " +:+ message)).

Definition delete (this : t) : Async bool :=
  try_catch
    (delete_company (JNum (id this)) ;; mret true)
    (λ message, throw ("Error deleting company: " +:+ message)).

End Company.

(** ** Requests and responses *)

Module User.
(** What the application routes read of [req.user], the instance of
    [class User] that the [auth] middleware loaded. *)
Record t := mk { id : Z; userType : string }.
End User.

Record Request := mkRequest {
  user : option User.t;   (* req.user: set by [auth], absent before it *)
  params : JSObject;      (* req.params *)
  body : JSObject }.      (* req.body *)

Inductive Data : Type :=
| NoData
| ApplicationData (application : option Application.t).

(** [res.status(code).json({ success, data, message })]; a plain
    [res.json] answers with 200. *)
Record Response := mkResponse {
  code : Z;
  success : bool;
  data : Data;
  message : string }.

(** ** middleware/auth.js *)

(** [requireRole(roles)]: either the response that ends the request, or
    [next()] with the user the rest of the chain will read. *)
Definition requireRole (roles : list string) (req : Request) : Response + User.t :=
  match user req with
  | None => inl (mkResponse 401 false NoData "Authentication required")
  | Some u =>
      if bool_decide (User.userType u ∈ roles)
      then inr u
      else inl (mkResponse 403 false NoData "Access denied. Insufficient permissions")
  end.

(** ** middleware/validation.js *)

Section Validation.

(** The string validators of express-validator that the chains use. *)
Variable isInt : string → bool.
Variable isURL : string → bool.

(** The string a chain validates: the field as text, absent fields as
    the empty string. *)
Definition field_text (v : JSVal) : string :=
  match v with
  | JStr s => s
  | JNum n => pretty n
  | JBool true => "true"
  | JBool false => "false"
  | _ => ""
  end.

Definition notEmpty (s : string) : bool := negb (String.eqb s "").

Definition isLength (min max : nat) (s : string) : bool :=
  (min <=? String.length s)%nat && (String.length s <=? max)%nat.

(** [validateApplication] followed by [handleValidationErrors]:
    [None] stands for [next()]. *)
Definition validateApplication (req : Request) : option Response :=
  let jobOfferId := field_text (prop (body req) "jobOfferId") in
  let coverLetter := field_text (prop (body req) "coverLetter") in
  let resumeUrl := field_text (prop (body req) "resumeUrl") in
  if notEmpty jobOfferId && isInt jobOfferId
     && notEmpty coverLetter && isLength 10 2000 coverLetter
     && notEmpty resumeUrl && isURL resumeUrl
  then None
  else Some (mkResponse 400 false NoData "Validation failed").

(** ** routes/applications.js *)

(** [POST /api/applications] *)
Definition post_application (req : Request) : Async Response :=
  match requireRole ["job_seeker"%string] req with
  | inl denied => mret denied
  | inr req_user =>
      match validateApplication req with
      | Some invalid => mret invalid
      | None =>
          try_catch
            (let applicationData := spread_with (body req) "userId" (JNum (User.id req_user)) in
             application ← Application.create applicationData;
             mret (mkResponse 201 true (ApplicationData application)
                              "Application submitted successfully"))
            (λ error, mret (mkResponse 400 false NoData error))
      end
  end.

End Validation.

(** [PUT /api/applications/:id/status] *)
Definition put_application_status (req : Request) : Async Response :=
  match requireRole ["company"; "admin"]%string req with
  | inl denied => mret denied
  | inr req_user =>
      try_catch
        (let status := prop (body req) "status" in
         if negb (truthy status)
         then mret (mkResponse 400 false NoData "Status is required")
         else
           application ← Application.findById (prop (params req) "id");
           match application with
           | None => mret (mkResponse 404 false NoData "Application not found")
           | Some application =>
               updatedApplication ← Application.updateStatus application status (JNum (User.id req_user));
               mret (mkResponse 200 true (ApplicationData (Some updatedApplication))
                                "Application status updated successfully")
           end)
        (λ error, mret (mkResponse 400 false NoData error))
  end.

(** [PUT /api/applications/bulk/status] *)
Definition put_applications_bulk_status (req : Request) : Async Response :=
  match requireRole ["company"; "admin"]%string req with
  | inl denied => mret denied
  | inr req_user =>
      try_catch
        (let applicationIds := prop (body req) "applicationIds" in
         let status := prop (body req) "status" in
         if negb (truthy applicationIds)
            || (if isArray applicationIds is Some ids then bool_decide (ids = []) else true)
         then mret (mkResponse 400 false NoData "Application IDs are required")
         else if negb (truthy status)
         then mret (mkResponse 400 false NoData "Status is required")
         else
           Application.bulkUpdateStatus applicationIds status (JNum (User.id req_user)) ;;
           mret (mkResponse 200 true NoData "Applications updated successfully"))
        (λ error, mret (mkResponse 400 false NoData error))
  end.

(** [DELETE /api/applications/:id] *)
Definition delete_application_route (req : Request) : Async Response :=
  match requireRole ["job_seeker"%string] req with
  | inl denied => mret denied
  | inr req_user =>
      try_catch
        (application ← Application.findById (prop (params req) "id");
         match application with
         | None => mret (mkResponse 404 false NoData "Application not found")
         | Some application =>
             if negb (Application.userId application =? User.id req_user)
             then mret (mkResponse 403 false NoData "Access denied")
             else
               Application.delete application ;;
               mret (mkResponse 200 true NoData "Application deleted successfully")
         end)
        (λ error, mret (mkResponse 500 false NoData error))
  end.

(** [PUT /api/applications/:id] *)
Definition put_application (req : Request) : Async Response :=
  match requireRole ["job_seeker"%string] req with
  | inl denied => mret denied
  | inr req_user =>
      try_catch
        (application ← Application.findById (prop (params req) "id");
         match application with
         | None => mret (mkResponse 404 false NoData "Application not found")
         | Some application =>
             if negb (Application.userId application =? User.id req_user)
             then mret (mkResponse 403 false NoData "Access denied")
             else
               updatedApplication ← Application.update application (body req);
               mret (mkResponse 200 true (ApplicationData updatedApplication)
                                "Application updated successfully")
         end)
        (λ error, mret (mkResponse 400 false NoData error))
  end.

(** ** routes/companies.js *)

(** [req.user.role].  The constructor of [class User] sets [id],
    [email], [password], [firstName], [lastName], [phone], [userType],
    [profilePicture], [isActive], [emailVerified], [createdAt] and
    [updatedAt], and the class defines no [role]: reading it gives
    [undefined]. *)
Definition user_role (req_user : User.t) : JSVal := JUndefined.

(** [v === 'literal'] *)
Definition strict_equals_string (v : JSVal) (literal : string) : bool :=
  match v with
  | JStr s => String.eqb s literal
  | _ => false
  end.

(** [DELETE /api/companies/:id] *)
Definition delete_company_route (req : Request) : Async Response :=
  match requireRole ["company"; "admin"]%string req with
  | inl denied => mret denied
  | inr req_user =>
      try_catch
        (company ← Company.findById (prop (params req) "id");
         match company with
         | None => mret (mkResponse 404 false NoData "Company not found")
         | Some company =>
             if strict_equals_string (user_role req_user) "company"
                && negb (Company.userId company =? User.id req_user)
             then mret (mkResponse 403 false NoData "Access denied")
             else
               Company.delete company ;;
               mret (mkResponse 200 true NoData "Company deleted successfully")
         end)
        (λ error, mret (mkResponse 500 false NoData error))
  end.

(** ** The ownership chain of the schema *)

(** Application → JobOffer → Company → owning User, along the foreign
    keys [applications.job_offer_id], [job_offers.company_id] and
    [companies.user_id]. *)
Definition owner_of_job_offer (w : World) (job_offer_id : Z) : option Z :=
  jo ← find (λ r, jo_id r =? job_offer_id) (job_offers w);
  c ← find (λ r, c_id r =? jo_company_id jo) (companies w);
  Some (c_user_id c).

Definition owner_of_application (w : World) (application_id : Z) : option Z :=
  a ← find (λ r, a_id r =? application_id) (applications w);
  owner_of_job_offer w (a_job_offer_id a).

Definition status_of (w : World) (application_id : Z) : option string :=
  a_status <$> find (λ r, a_id r =? application_id) (applications w).

Definition updated_at_of (w : World) (application_id : Z) : option Z :=
  a_updated_at <$> find (λ r, a_id r =? application_id) (applications w).

(** * The vocabulary of the properties *)

(** The enumeration of the specification. *)
Definition recognized (newStatus : JSVal) : Prop :=
  ∃ s, newStatus = JStr s
       ∧ s ∈ ["pending"; "reviewed"; "interview"; "accepted"; "rejected"]%string.

(** The next call of [db.execute] is not going to be rejected. *)
Definition accepts_next (w : World) : Prop :=
  match faults w with Some _ :: _ => False | _ => True end.

(** The world after one accepted call of [db.execute]. *)
Definition after_call (w : World) : World := set_faults (tail (faults w)) w.

Ltac unfold_async :=
  unfold mbind, Async_bind, bind, mret, Async_ret, ret, throw, try_catch in *.

(** Closed decidable facts, such as membership of a literal in a literal list. *)
Ltac by_decide := apply (bool_decide_unpack _); vm_compute; exact I.

(** The table after [UPDATE ... SET status = s ... WHERE id = i] at time [t]. *)
Definition transitioned (s : string) (t i : Z) (rows : list ApplicationRow) : list ApplicationRow :=
  map (λ r, if i =? a_id r then with_status s t r else r) rows.

(** The table after [UPDATE ... SET status = s ... WHERE id IN (ids)] at
    time [t]. *)
Definition transitioned_in (s : string) (t : Z) (ids : list JSVal) (rows : list ApplicationRow)
  : list ApplicationRow :=
  map (λ r, if existsb (λ id, same_id id (a_id r)) ids then with_status s t r else r) rows.

Definition listed (ids : list JSVal) (application_id : Z) : bool :=
  existsb (λ id, same_id id application_id) ids.

Definition insufficient_permissions : Response :=
  mkResponse 403 false NoData "Access denied. Insufficient permissions".

(** At most one row per (job offer, applicant): the key
    [unique_application] of the schema. *)
Definition unique_application (w : World) : Prop :=
  NoDup (map (λ r, (a_job_offer_id r, a_user_id r)) (applications w)).

(** The object [{ jobOfferId, userId, coverLetter, resumeUrl }]. *)
Definition application_data (jobOfferId userId : Z) (coverLetter resumeUrl : JSVal) : JSObject :=
  {[ "jobOfferId" := JNum jobOfferId; "userId" := JNum userId;
     "coverLetter" := coverLetter; "resumeUrl" := resumeUrl ]}.

(** No application of this applicant to this job offer is stored. *)
Definition absent (j u : Z) (w : World) : Prop :=
  ∀ r, r ∈ applications w → ¬ (a_job_offer_id r = j ∧ a_user_id r = u).

(** AUTO_INCREMENT is above every id in use. *)
Definition fresh_ids (w : World) : Prop :=
  ∀ r, r ∈ applications w → a_id r < auto_increment w.

Definition same_pair (j u : Z) (r : ApplicationRow) : bool :=
  same_id (JNum j) (a_job_offer_id r) && same_id (JNum u) (a_user_id r).

(** The world after a successful INSERT of an application. *)
Definition inserted (j u : Z) (c r : JSVal) (w : World) : World :=
  set_auto_increment (auto_increment w + 1)
    (set_applications
       (λ t, t ++ [mkApplicationRow (auto_increment w) j u c r "pending" (now w) (now w)]) w).

(** A world that differs from [w] at most by what is outside the
    applications table: notifications, console, pending outcomes. *)
Definition same_applications (w w' : World) : Prop :=
  applications w' = applications w ∧ auto_increment w' = auto_increment w ∧ now w' = now w.

(** Every stored status is one of the five of the ENUM column. *)
Definition valid_statuses (w : World) : Prop :=
  ∀ r, r ∈ applications w → a_status r ∈ Application.validStatuses.

(** The primary key: no id twice, and AUTO_INCREMENT above all of them. *)
Definition primary_key (w : World) : Prop :=
  NoDup (map a_id (applications w)) ∧ fresh_ids w.

(** What a statement that rewrites rows may do to a row: the id, the job
    offer, the applicant and the date of application stay, and the
    status stays or becomes one of the five. *)
Definition keeps_identity (f : ApplicationRow → ApplicationRow) : Prop :=
  ∀ r, a_id (f r) = a_id r ∧ a_job_offer_id (f r) = a_job_offer_id r
       ∧ a_user_id (f r) = a_user_id r ∧ a_applied_at (f r) = a_applied_at r
       ∧ (a_status (f r) = a_status r ∨ a_status (f r) ∈ Application.validStatuses).

(** What one operation of the model does to the applications table and
    to its counter: nothing, one INSERT of a pair that was not there, one
    UPDATE, or one DELETE. *)
Inductive table_step (w : World) (rows : list ApplicationRow) (counter : Z) : Prop :=
| step_nothing :
    rows = applications w → counter = auto_increment w → table_step w rows counter
| step_insert j u c r :
    absent j u w →
    rows = applications w
           ++ [mkApplicationRow (auto_increment w) j u c r "pending" (now w) (now w)] →
    counter = auto_increment w + 1 →
    table_step w rows counter
| step_update f :
    keeps_identity f → rows = map f (applications w) → counter = auto_increment w →
    table_step w rows counter
| step_delete keep :
    rows = List.filter keep (applications w) → counter = auto_increment w →
    table_step w rows counter.

(** The notification that [createStatusNotification] stores. *)
Definition status_notification (user_id : Z) (message : string) : NotificationRow :=
  mkNotification user_id "Application Status Update" message "application_status".

(** The applicants of the applications that the ids of a bulk update
    resolve to, id by id. *)
Definition resolved_applicants (ids : list JSVal) (rows : list ApplicationRow) : list Z :=
  omap (λ id, a_user_id <$> head (List.filter (λ r, same_id id (a_id r)) rows)) ids.

(** The five sums of a row of counts are NULL together, over no row, or
    are numbers that add up to the total. *)
Definition adds_up (counts : StatusCounts) : Prop :=
  (sc_total counts = 0
   ∧ sc_pending counts = None ∧ sc_reviewed counts = None ∧ sc_interview counts = None
   ∧ sc_accepted counts = None ∧ sc_rejected counts = None)
  ∨ ∃ pending reviewed interview accepted rejected,
      sc_pending counts = Some pending ∧ sc_reviewed counts = Some reviewed
      ∧ sc_interview counts = Some interview ∧ sc_accepted counts = Some accepted
      ∧ sc_rejected counts = Some rejected
      ∧ 0 ≤ pending ∧ 0 ≤ reviewed ∧ 0 ≤ interview ∧ 0 ≤ accepted ∧ 0 ≤ rejected
      ∧ 0 < sc_total counts
      ∧ pending + reviewed + interview + accepted + rejected = sc_total counts.

(** The foreign keys between the three tables: every application is to
    a stored job offer, every job offer is of a stored company. *)
Definition referential_integrity (w : World) : Prop :=
  (∀ a, a ∈ applications w → ∃ jo, jo ∈ job_offers w ∧ jo_id jo = a_job_offer_id a)
  ∧ (∀ jo, jo ∈ job_offers w → ∃ c, c ∈ companies w ∧ c_id c = jo_company_id jo).

(** ** Sample data *)

Module Demo.

(** Two companies, each with its owner and one job offer; two
    applications to the job offer of the first company, one pending,
    one accepted. *)
Definition owner_a : User.t := User.mk 1 "company".
Definition owner_b : User.t := User.mk 2 "company".
Definition seeker : User.t := User.mk 5 "job_seeker".
Definition admin : User.t := User.mk 9 "admin".

Definition pending_row : ApplicationRow :=
  mkApplicationRow 1 100 5 (JStr "I would like to join.") (JStr "https://cv.example/5") "pending" 10 10.
Definition accepted_row : ApplicationRow :=
  mkApplicationRow 2 100 6 (JStr "I would like to join.") (JStr "https://cv.example/6") "accepted" 20 30.

Definition world : World :=
  mkWorld [mkCompany 10 1; mkCompany 20 2]
          [mkJobOffer 100 10; mkJobOffer 200 20]
          [pending_row; accepted_row]
          [] 3 1000 [] [].

Definition application_body (jobOfferId : Z) : JSObject :=
  {[ "jobOfferId" := JNum jobOfferId;
     "coverLetter" := JStr "I would like to join.";
     "resumeUrl" := JStr "https://cv.example/5" ]}.

Definition isInt (s : string) : bool := bool_decide (is_Some (NilZero.int_of_string s)).
Definition isURL (s : string) : bool := String.prefix "https://" s.

End Demo.

(** * Properties *)

(** ** The statuses *)

Lemma includes_Some (a : list string) (v : JSVal) (s : string) :
  includes a v = Some s ↔ v = JStr s ∧ s ∈ a.
Proof.
  destruct v; simpl; try (split; [discriminate | intros [[=] _]]).
  case_bool_decide; split.
  - by intros [= ->].
  - by intros [[= ->] _].
  - discriminate.
  - by intros [[= ->] ?].
Qed.

Lemma includes_recognized (v : JSVal) :
  recognized v ↔ ∃ s, includes Application.validStatuses v = Some s.
Proof.
  unfold recognized. split; intros [s Hs]; exists s; by apply includes_Some.
Qed.

Lemma includes_unrecognized (v : JSVal) :
  ¬ recognized v → includes Application.validStatuses v = None.
Proof.
  intros Hv. destruct (includes _ v) as [s|] eqn:E; [|done].
  destruct Hv. apply includes_recognized. eauto.
Qed.

Lemma includes_valid (s : string) :
  s ∈ Application.validStatuses → includes Application.validStatuses (JStr s) = Some s.
Proof. intros Hs. by apply includes_Some. Qed.

(** ** Running the statements *)

Lemma healthy_accepts_next w : healthy w → accepts_next w.
Proof. unfold healthy, accepts_next. by intros ->. Qed.

Lemma healthy_after_call w : healthy w → after_call w = w.
Proof. unfold healthy, after_call. destruct w; simpl. by intros ->. Qed.

Lemma execute_accepted {A} (params : list JSVal) (run : Async A) (w : World) :
  accepts_next w → existsb is_undefined params = false →
  execute params run w = run (after_call w).
Proof.
  unfold accepts_next, execute, after_call. intros Hw ->.
  destruct w as [? ? ? ? ? ? fs ?]; simpl in *. by destruct fs as [|[e|] fs].
Qed.

Lemma execute_healthy {A} (params : list JSVal) (run : Async A) (w : World) :
  healthy w → existsb is_undefined params = false → execute params run w = run w.
Proof.
  intros Hw Hp. rewrite execute_accepted by auto using healthy_accepts_next.
  by rewrite healthy_after_call.
Qed.

Lemma execute_rejected {A} (params : list JSVal) (run : Async A) (w : World) error fs :
  faults w = Some error :: fs → existsb is_undefined params = false →
  execute params run w = (Throw error, set_faults fs w).
Proof. unfold execute. by intros -> ->. Qed.

Lemma findById_healthy i w :
  healthy w →
  Application.findById (JNum i) w
  = (Return (Application.new <$> head (List.filter (λ r, same_id (JNum i) (a_id r)) (applications w))),
     w).
Proof.
  intros Hw. unfold Application.findById, select_application_by_id.
  unfold_async. by rewrite execute_healthy.
Qed.

Lemma createStatusNotification_returns this s updatedBy w :
  ∃ w', Application.createStatusNotification this s updatedBy w = (Return (), w')
        ∧ applications w' = applications w ∧ now w' = now w
        ∧ (healthy w → healthy w').
Proof.
  unfold Application.createStatusNotification.
  destruct (Application.statusMessage s) as [m|]; [|by eexists].
  unfold try_catch, insert_notification, execute. simpl.
  destruct w as [? ? ? ? ? ? fs ?]; simpl.
  destruct fs as [|[e|] fs]; eexists; (split; [reflexivity|]); simpl; auto.
  all: repeat split; auto; discriminate.
Qed.

Lemma createStatusNotification_healthy this s updatedBy w :
  healthy w →
  Application.createStatusNotification this s updatedBy w =
    (Return (),
     match Application.statusMessage s with
     | Some m =>
         set_notifications
           (λ t, t ++ [mkNotification (Application.userId this) "Application Status Update" m
                                      "application_status"]) w
     | None => w
     end).
Proof.
  intros Hw. unfold Application.createStatusNotification.
  destruct (Application.statusMessage s) as [m|]; [|done].
  unfold try_catch, insert_notification. by rewrite execute_healthy.
Qed.

Lemma updateStatus_accepted this s updatedBy w :
  s ∈ Application.validStatuses → accepts_next w →
  ∃ w', Application.updateStatus this (JStr s) updatedBy w
          = (Return (Application.set_status s this), w')
        ∧ applications w' = transitioned s (now w) (Application.id this) (applications w).
Proof.
  intros Hs Hw. unfold Application.updateStatus. rewrite includes_valid by done.
  unfold_async. unfold update_application_status.
  rewrite execute_accepted by done.
  destruct (truthy updatedBy).
  - edestruct createStatusNotification_returns as (w' & -> & Happ & _).
    eexists; split; [reflexivity|]. rewrite Happ. by destruct w.
  - eexists; split; [reflexivity|]. by destruct w.
Qed.

Lemma find_transitioned s t i rows :
  find (λ r, a_id r =? i) (transitioned s t i rows)
  = with_status s t <$> find (λ r, a_id r =? i) rows.
Proof.
  induction rows as [|r rows IH]; [done|]. simpl.
  destruct (Z.eqb_spec i (a_id r)) as [->|Hne]; simpl.
  - by rewrite Z.eqb_refl.
  - destruct (Z.eqb_spec (a_id r) i); [congruence | done].
Qed.

Lemma find_transitioned_other s t i j rows :
  i ≠ j →
  a_status <$> find (λ r, a_id r =? j) (transitioned s t i rows)
  = a_status <$> find (λ r, a_id r =? j) rows.
Proof.
  intros Hij. induction rows as [|r rows IH]; [done|]. simpl.
  destruct (Z.eqb_spec i (a_id r)) as [->|Hne]; simpl.
  - destruct (Z.eqb_spec (a_id r) j); [congruence | done].
  - by destruct (a_id r =? j).
Qed.

(** ** The lifecycle: [updateStatus] *)

(** C2, as the code has it.  Whatever the current status of an
    application, accepted and rejected included, [updateStatus] with any
    of the five statuses goes through when the store takes the UPDATE:
    the row gets the new status and CURRENT_TIMESTAMP as [updated_at].
    There is no terminal state. *)
Theorem updateStatus_from_any_status this s updatedBy w row :
  healthy w →
  s ∈ Application.validStatuses →
  find (λ r, a_id r =? Application.id this) (applications w) = Some row →
  ∃ w', Application.updateStatus this (JStr s) updatedBy w
          = (Return (Application.set_status s this), w')
        ∧ status_of w' (Application.id this) = Some s
        ∧ updated_at_of w' (Application.id this) = Some (now w).
Proof.
  intros Hw Hs Hrow.
  destruct (updateStatus_accepted this s updatedBy w Hs (healthy_accepts_next _ Hw))
    as (w' & Hrun & Happ).
  exists w'. split; [done|].
  unfold status_of, updated_at_of. by rewrite Happ, find_transitioned, Hrow.
Qed.

Lemma updateStatus_from_any_status_witness :
  a_status Demo.accepted_row = "accepted"%string
  ∧ ∃ w', Application.updateStatus (Application.new Demo.accepted_row) (JStr "pending") JNull Demo.world
          = (Return (Application.set_status "pending" (Application.new Demo.accepted_row)), w')
        ∧ status_of w' 2 = Some "pending"%string
        ∧ updated_at_of w' 2 = Some 1000.
Proof.
  split; [reflexivity|].
  apply (updateStatus_from_any_status (Application.new Demo.accepted_row) "pending" JNull
           Demo.world Demo.accepted_row).
  - reflexivity.
  - by_decide.
  - reflexivity.
Defined.

(** C2, as stated, fails: an accepted application is moved back to
    pending, and its [updated_at] changes. *)
Lemma accepted_application_is_reopened :
  status_of Demo.world 2 = Some "accepted"%string
  ∧ updated_at_of Demo.world 2 = Some 30
  ∧ ∃ w', Application.updateStatus (Application.new Demo.accepted_row) (JStr "pending") JNull Demo.world
          = (Return (Application.set_status "pending" (Application.new Demo.accepted_row)), w')
        ∧ status_of w' 2 = Some "pending"%string
        ∧ updated_at_of w' 2 = Some 1000.
Proof. repeat split. eexists. repeat split. Qed.

(** C5.  A transition that goes through, made on behalf of an acting
    user, with the store taking both writes: into reviewed, interview,
    accepted or rejected it adds exactly one notification, addressed to
    the applicant ([userId] of the application, whoever [updatedBy] is),
    with the message of the new status; into pending it adds none. *)
Theorem transition_notifies_applicant this s updatedBy w :
  healthy w →
  truthy updatedBy = true →
  s ∈ Application.validStatuses →
  ∃ w', Application.updateStatus this (JStr s) updatedBy w
          = (Return (Application.set_status s this), w')
        ∧ let to_applicant message :=
            mkNotification (Application.userId this) "Application Status Update" message
                           "application_status" in
          (s = "reviewed"%string →
             notifications w' = notifications w ++ [to_applicant "Your application has been reviewed"])
          ∧ (s = "interview"%string →
             notifications w' = notifications w ++ [to_applicant "You have been invited for an interview"])
          ∧ (s = "accepted"%string →
             notifications w' = notifications w
                                ++ [to_applicant "Congratulations! Your application has been accepted"])
          ∧ (s = "rejected"%string →
             notifications w' = notifications w ++ [to_applicant "Your application has been rejected"])
          ∧ (s = "pending"%string → notifications w' = notifications w).
Proof.
  intros Hw Hby Hs. unfold Application.updateStatus. rewrite includes_valid by done.
  unfold_async. unfold update_application_status.
  rewrite execute_healthy by done. rewrite Hby.
  rewrite createStatusNotification_healthy by (by destruct w).
  eexists; split; [reflexivity|].
  simpl. repeat split; intros ->; by destruct w.
Qed.

Lemma transition_notifies_applicant_witness :
  ∃ w', Application.updateStatus (Application.new Demo.pending_row) (JStr "interview")
                                 (JNum (User.id Demo.owner_a)) Demo.world
          = (Return (Application.set_status "interview" (Application.new Demo.pending_row)), w')
        ∧ notifications w'
          = [mkNotification 5 "Application Status Update" "You have been invited for an interview"
                            "application_status"].
Proof.
  destruct (transition_notifies_applicant (Application.new Demo.pending_row) "interview"
              (JNum (User.id Demo.owner_a)) Demo.world)
    as (w' & Hrun & _ & Hinterview & _).
  - reflexivity.
  - reflexivity.
  - by_decide.
  - exists w'. split; [exact Hrun | exact (Hinterview eq_refl)].
Defined.

(** C7.  Once the store has taken the UPDATE, [updateStatus] returns the
    application with its new status and the row keeps that status,
    whatever becomes of the notification.  When the INSERT of the
    notification is rejected, the error is written to the console, no
    notification is stored, and the caller sees nothing of it. *)
Theorem notification_failure_is_swallowed this s updatedBy w :
  s ∈ Application.validStatuses →
  accepts_next w →
  ∃ w', Application.updateStatus this (JStr s) updatedBy w
          = (Return (Application.set_status s this), w')
        ∧ applications w' = transitioned s (now w) (Application.id this) (applications w)
        ∧ ∀ error fs,
            tail (faults w) = Some error :: fs →
            truthy updatedBy = true →
            is_Some (Application.statusMessage s) →
            notifications w' = notifications w
            ∧ console w' = console w ++ ["Error creating notification: " +:+ error].
Proof.
  intros Hs Hw.
  destruct (updateStatus_accepted this s updatedBy w Hs Hw) as (w' & Hrun & Happ).
  exists w'. split; [done|]. split; [done|].
  intros error fs Hfs Hby [m Hm].
  revert Hrun. unfold Application.updateStatus. rewrite includes_valid by done.
  unfold_async. unfold update_application_status.
  rewrite execute_accepted by done. rewrite Hby.
  unfold Application.createStatusNotification. rewrite Hm.
  unfold try_catch, insert_notification.
  erewrite execute_rejected; [| by destruct w; simpl in *; eauto | done].
  intros [= <-]. by destruct w.
Qed.

Lemma notification_failure_is_swallowed_witness :
  ∃ w', Application.updateStatus (Application.new Demo.pending_row) (JStr "accepted") (JNum 1)
                                 (set_faults [None; Some "Connection lost"%string] Demo.world)
          = (Return (Application.set_status "accepted" (Application.new Demo.pending_row)), w')
        ∧ status_of w' 1 = Some "accepted"%string
        ∧ notifications w' = []
        ∧ console w' = ["Error creating notification: Connection lost"%string].
Proof.
  destruct (notification_failure_is_swallowed (Application.new Demo.pending_row) "accepted" (JNum 1)
              (set_faults [None; Some "Connection lost"%string] Demo.world))
    as (w' & Hrun & Happ & Hlog).
  - by_decide.
  - exact I.
  - exists w'. split; [exact Hrun|]. split.
    + unfold status_of. rewrite Happ. reflexivity.
    + apply (Hlog "Connection lost"%string []); [reflexivity | reflexivity | by eexists].
Defined.

(** ** The bulk update *)

Lemma notify_each_healthy ids s updatedBy w :
  healthy w →
  existsb is_undefined ids = false →
  ∃ w', Application.notify_each ids s updatedBy w = (Return (), w')
        ∧ applications w' = applications w ∧ now w' = now w ∧ healthy w'.
Proof.
  revert w. induction ids as [|appId ids IH]; intros w Hw Hids; [by eexists|].
  simpl in Hids. apply orb_false_iff in Hids as [HappId Hids].
  simpl. unfold_async. unfold Application.findById, select_application_by_id.
  unfold_async. rewrite execute_healthy by (simpl; by rewrite ?HappId).
  destruct (Application.new <$> head _) as [app|].
  - destruct (createStatusNotification_returns app s updatedBy w) as (w1 & -> & Happ & Hnow & Hh).
    destruct (IH w1 (Hh Hw) Hids) as (w' & -> & Happ' & Hnow' & Hh').
    exists w'. repeat split; congruence.
  - destruct (IH w Hw Hids) as (w' & -> & ?). by exists w'.
Qed.

Lemma bulkUpdateStatus_healthy id ids s updatedBy w :
  healthy w →
  s ∈ Application.validStatuses →
  existsb is_undefined (id :: ids) = false →
  ∃ w', Application.bulkUpdateStatus (JArr (id :: ids)) (JStr s) updatedBy w = (Return true, w')
        ∧ applications w' = transitioned_in s (now w) (id :: ids) (applications w)
        ∧ now w' = now w ∧ healthy w'.
Proof.
  intros Hw Hs Hids. unfold Application.bulkUpdateStatus.
  rewrite includes_valid by done. cbn [isArray].
  unfold_async. unfold update_application_status_in.
  rewrite execute_healthy by done.
  destruct (truthy updatedBy).
  - edestruct (notify_each_healthy (id :: ids) s updatedBy) as (w' & -> & Happ & Hnow & Hh);
      [| exact Hids | ].
    + by destruct w.
    + exists w'. rewrite Happ, Hnow. by destruct w.
  - eexists. split; [reflexivity|]. by destruct w.
Qed.

(** C9.  A new status outside the enumeration makes both [updateStatus]
    and [bulkUpdateStatus] throw the invalid-status error, with nothing
    written.  With a recognized status and a store that takes the
    statements, [bulkUpdateStatus] throws for an empty list of ids and for
    nothing else: whatever the listed ids resolve to, it returns. *)
Theorem unknown_status_is_rejected :
  (∀ this newStatus updatedBy w,
      ¬ recognized newStatus →
      Application.updateStatus this newStatus updatedBy w
      = (Throw Application.invalid_status_message, w))
  ∧ (∀ applicationIds newStatus updatedBy w,
      ¬ recognized newStatus →
      Application.bulkUpdateStatus applicationIds newStatus updatedBy w
      = (Throw Application.invalid_status_message, w))
  ∧ (∀ ids newStatus updatedBy w,
      recognized newStatus →
      healthy w →
      existsb is_undefined ids = false →
      (ids = [] →
         Application.bulkUpdateStatus (JArr ids) newStatus updatedBy w
         = (Throw "Invalid application IDs", w))
      ∧ (ids ≠ [] →
         ∃ w', Application.bulkUpdateStatus (JArr ids) newStatus updatedBy w = (Return true, w'))).
Proof.
  split; [|split].
  - intros this newStatus updatedBy w Hs. unfold Application.updateStatus.
    by rewrite includes_unrecognized.
  - intros ids newStatus updatedBy w Hs. unfold Application.bulkUpdateStatus.
    by rewrite includes_unrecognized.
  - intros ids newStatus updatedBy w (s & -> & Hs) Hw Hids. split.
    + intros ->. unfold Application.bulkUpdateStatus. by rewrite includes_valid.
    + destruct ids as [|id ids]; [done|]. intros _.
      destruct (bulkUpdateStatus_healthy id ids s updatedBy w) as (w' & Hrun & _); eauto.
Qed.

Lemma unknown_status_is_rejected_witness :
  Application.updateStatus (Application.new Demo.pending_row) (JStr "hired") (JNum 1) Demo.world
  = (Throw "Invalid status. Must be one of: pending, reviewed, interview, accepted, rejected",
     Demo.world)
  ∧ Application.bulkUpdateStatus (JArr [JNum 1; JNum 2]) (JStr "hired") (JNum 1) Demo.world
    = (Throw "Invalid status. Must be one of: pending, reviewed, interview, accepted, rejected",
       Demo.world)
  ∧ Application.bulkUpdateStatus (JArr []) (JStr "reviewed") (JNum 1) Demo.world
    = (Throw "Invalid application IDs", Demo.world)
  ∧ ∃ w', Application.bulkUpdateStatus (JArr [JNum 2; JNum 77]) (JStr "reviewed") (JNum 1) Demo.world
          = (Return true, w').
Proof.
  assert (Hhired : ¬ recognized (JStr "hired")).
  { intros (s & [= <-] & Hs). by repeat (apply elem_of_cons in Hs as [?|Hs]; [done|]); inversion Hs. }
  assert (Hreviewed : recognized (JStr "reviewed")).
  { exists "reviewed"%string. split; [reflexivity | by_decide]. }
  destruct unknown_status_is_rejected as (Hsingle & Hbulk & Hitems).
  split; [|split; [|split]].
  - exact (Hsingle _ _ _ _ Hhired).
  - exact (Hbulk _ _ _ _ Hhired).
  - apply (Hitems [] (JStr "reviewed") (JNum 1) Demo.world Hreviewed); reflexivity.
  - apply (Hitems [JNum 2; JNum 77] (JStr "reviewed") (JNum 1) Demo.world Hreviewed);
      [reflexivity | reflexivity | discriminate].
Defined.

Lemma find_id_map (f : ApplicationRow → ApplicationRow) i rows :
  (∀ r, a_id (f r) = a_id r) →
  find (λ r, a_id r =? i) (map f rows) = f <$> find (λ r, a_id r =? i) rows.
Proof.
  intros Hf. induction rows as [|r rows IH]; [done|]. simpl.
  rewrite Hf. by destruct (a_id r =? i).
Qed.

Lemma status_of_transitioned_in s t ids i w w' :
  applications w' = transitioned_in s t ids (applications w) →
  status_of w' i = (λ st, if listed ids i then s else st) <$> status_of w i.
Proof.
  intros Happ. unfold status_of. rewrite Happ. unfold transitioned_in.
  rewrite find_id_map by (intros r; by destruct (existsb _ ids)).
  destruct (find _ (applications w)) as [r|] eqn:Hr; [|done]. simpl.
  apply find_some in Hr as [_ Hi]. apply Z.eqb_eq in Hi. subst i.
  unfold listed. by destruct (existsb _ ids).
Qed.

(** C3, as the code has it.  For a non-empty list of ids and a recognized
    status, with the store taking the statements, [bulkUpdateStatus]
    returns [true] and nothing else.  Every application that one of the
    ids resolves to gets the new status, whatever its status was; the
    other applications keep theirs; an id that resolves to nothing
    changes nothing and stops nothing.  Running the same call again, at
    any later time, leaves every status as the first run left it. *)
Theorem bulkUpdateStatus_sets_every_listed_status id ids s updatedBy w :
  healthy w →
  s ∈ Application.validStatuses →
  existsb is_undefined (id :: ids) = false →
  ∃ w', Application.bulkUpdateStatus (JArr (id :: ids)) (JStr s) updatedBy w = (Return true, w')
        ∧ (∀ i, status_of w' i = (λ st, if listed (id :: ids) i then s else st) <$> status_of w i)
        ∧ ∀ t, ∃ w'',
            Application.bulkUpdateStatus (JArr (id :: ids)) (JStr s) updatedBy (set_now t w')
            = (Return true, w'')
            ∧ ∀ i, status_of w'' i = status_of w' i.
Proof.
  intros Hw Hs Hids.
  destruct (bulkUpdateStatus_healthy id ids s updatedBy w Hw Hs Hids) as (w' & Hrun & Happ & _ & Hw').
  exists w'. split; [done|]. split; [eauto using status_of_transitioned_in|].
  intros t.
  destruct (bulkUpdateStatus_healthy id ids s updatedBy (set_now t w')) as (w'' & Hrun' & Happ' & _);
    [by destruct w' | done | done |].
  exists w''. split; [done|]. intros i.
  rewrite (status_of_transitioned_in _ _ _ i _ _ Happ').
  replace (status_of (set_now t w') i) with (status_of w' i) by (by destruct w').
  rewrite (status_of_transitioned_in _ _ _ i _ _ Happ).
  destruct (status_of w i) as [st|]; [|done].
  unfold fmap, option_fmap, option_map. by destruct (listed (id :: ids) i).
Qed.

Lemma bulkUpdateStatus_sets_every_listed_status_witness :
  ∃ w', Application.bulkUpdateStatus (JArr [JNum 1; JNum 2; JNum 77]) (JStr "rejected") (JNum 1)
                                     Demo.world
        = (Return true, w')
        ∧ status_of w' 1 = Some "rejected"%string
        ∧ status_of w' 2 = Some "rejected"%string
        ∧ status_of w' 77 = None.
Proof.
  destruct (bulkUpdateStatus_sets_every_listed_status (JNum 1) [JNum 2; JNum 77] "rejected" (JNum 1)
              Demo.world) as (w' & Hrun & Hstatus & _).
  - reflexivity.
  - by_decide.
  - reflexivity.
  - exists w'. split; [exact Hrun|]. rewrite !Hstatus. repeat split.
Defined.

(** C3, as stated, fails: over a pending and an accepted application the
    call answers [true] without any list of failures, and the accepted
    application has become rejected. *)
Lemma bulk_update_overwrites_terminal_status :
  status_of Demo.world 1 = Some "pending"%string
  ∧ status_of Demo.world 2 = Some "accepted"%string
  ∧ ∃ w', Application.bulkUpdateStatus (JArr [JNum 1; JNum 2]) (JStr "rejected") (JNum 1) Demo.world
          = (Return true, w')
        ∧ status_of w' 1 = Some "rejected"%string
        ∧ status_of w' 2 = Some "rejected"%string.
Proof. repeat split. eexists. repeat split. Qed.

(** ** Who may change a status *)

(** C1, on the code: the owner of the second company, who owns neither
    the first company nor its job offer, sets the status of an
    application to that job offer, and is answered 200. *)
Theorem foreign_company_owner_changes_status :
  owner_of_application Demo.world 1 = Some (User.id Demo.owner_a)
  ∧ owner_of_job_offer Demo.world 200 = Some (User.id Demo.owner_b)
  ∧ User.id Demo.owner_b ≠ User.id Demo.owner_a
  ∧ status_of Demo.world 1 = Some "pending"%string
  ∧ ∃ w', put_application_status
            (mkRequest (Some Demo.owner_b) {[ "id" := JStr "1" ]} {[ "status" := JStr "rejected" ]})
            Demo.world
          = (Return (mkResponse 200 true
                       (ApplicationData
                          (Some (Application.set_status "rejected" (Application.new Demo.pending_row))))
                       "Application status updated successfully"), w')
        ∧ status_of w' 1 = Some "rejected"%string.
Proof. repeat split; [discriminate|]. eexists. split; [vm_compute; reflexivity | reflexivity]. Qed.

Lemma requireRole_admitted roles req u :
  user req = Some u → User.userType u ∈ roles → requireRole roles req = inr u.
Proof. unfold requireRole. intros -> Hu. by rewrite bool_decide_eq_true_2. Qed.

Lemma requireRole_denied roles req u :
  user req = Some u → User.userType u ∉ roles → requireRole roles req = inl insufficient_permissions.
Proof. unfold requireRole. intros -> Hu. by rewrite bool_decide_eq_false_2. Qed.

Lemma put_application_status_answers req u w :
  requireRole ["company"; "admin"]%string req = inr u →
  ∃ r w', put_application_status req w = (Return r, w')
          ∧ (code r = 200 ∨ code r = 400 ∨ code r = 404).
Proof.
  intros Hrole. unfold put_application_status. rewrite Hrole. unfold_async.
  destruct (truthy (prop (body req) "status")); simpl; [|eauto 10].
  destruct (Application.findById _ w) as [[[app|]|error] w1]; [|eauto 10..].
  destruct (Application.updateStatus app _ _ w1) as [[updated|error] w2]; eauto 10.
Qed.

Lemma put_applications_bulk_status_answers req u w :
  requireRole ["company"; "admin"]%string req = inr u →
  ∃ r w', put_applications_bulk_status req w = (Return r, w')
          ∧ (code r = 200 ∨ code r = 400).
Proof.
  intros Hrole. unfold put_applications_bulk_status. rewrite Hrole. unfold_async.
  destruct (negb (truthy (prop (body req) "applicationIds")) || _); [eauto 10|].
  destruct (negb (truthy (prop (body req) "status"))); [eauto 10|].
  destruct (Application.bulkUpdateStatus _ _ _ w) as [[done|error] w1]; eauto 10.
Qed.

Lemma head_filter_by_id i rows :
  head (List.filter (λ r, same_id (JNum i) (a_id r)) rows) = find (λ r, a_id r =? i) rows.
Proof.
  induction rows as [|r rows IH]; [done|]. simpl. unfold same_id at 1, sql_int.
  rewrite (Z.eqb_sym i). by destruct (a_id r =? i).
Qed.

(** Any company user or administrator changes the status of any stored
    application: the route reads nothing of who owns the job offer. *)
Lemma put_application_status_of_any_application u i s row w :
  healthy w →
  User.userType u ∈ ["company"; "admin"]%string →
  s ∈ Application.validStatuses →
  find (λ r, a_id r =? i) (applications w) = Some row →
  ∃ w', put_application_status (mkRequest (Some u) {[ "id" := JNum i ]} {[ "status" := JStr s ]}) w
        = (Return (mkResponse 200 true
                     (ApplicationData (Some (Application.set_status s (Application.new row))))
                     "Application status updated successfully"), w')
        ∧ status_of w' i = Some s.
Proof.
  intros Hw Hu Hs Hrow. unfold put_application_status.
  rewrite (requireRole_admitted _ _ u) by done. unfold_async.
  replace (prop (body _) "status") with (JStr s) by done.
  replace (prop (params _) "id") with (JNum i) by done.
  assert (truthy (JStr s) = true) as ->.
  { clear -Hs. by repeat (apply elem_of_cons in Hs as [->|Hs]; [done|]); apply elem_of_nil in Hs. }
  cbn [negb]. rewrite findById_healthy, head_filter_by_id, Hrow by done. cbn [fmap option_fmap option_map].
  destruct (updateStatus_accepted (Application.new row) s (JNum (User.id u)) w Hs
              (healthy_accepts_next _ Hw)) as (w' & -> & Happ).
  exists w'. split; [done|].
  unfold status_of. rewrite Happ.
  replace (Application.id (Application.new row)) with i.
  - by rewrite find_transitioned, Hrow.
  - apply find_some in Hrow as [_ Hi]. apply Z.eqb_eq in Hi. by rewrite <- Hi.
Qed.

(** C6, as the code has it.  An administrator is let through on the two
    routes that change statuses, gated by [requireRole(['company',
    'admin'])], and is answered 403 on creating and on deleting an
    application, both gated by [requireRole(['job_seeker'])]. *)
Theorem admin_is_admitted_to_status_routes_only
    (isInt isURL : string → bool) (req : Request) (u : User.t) (w : World) :
  user req = Some u →
  User.userType u = "admin"%string →
  post_application isInt isURL req w = (Return insufficient_permissions, w)
  ∧ delete_application_route req w = (Return insufficient_permissions, w)
  ∧ (∃ r w', put_application_status req w = (Return r, w') ∧ code r ≠ 401 ∧ code r ≠ 403)
  ∧ (∃ r w', put_applications_bulk_status req w = (Return r, w') ∧ code r ≠ 401 ∧ code r ≠ 403).
Proof.
  intros Hreq Hu.
  assert (Hseeker : requireRole ["job_seeker"%string] req = inl insufficient_permissions).
  { apply (requireRole_denied _ _ u Hreq). rewrite Hu. by_decide. }
  assert (Hstaff : requireRole ["company"; "admin"]%string req = inr u).
  { apply (requireRole_admitted _ _ u Hreq). rewrite Hu. by_decide. }
  split; [|split; [|split]].
  - unfold post_application. by rewrite Hseeker.
  - unfold delete_application_route. by rewrite Hseeker.
  - destruct (put_application_status_answers req u w Hstaff) as (r & w' & Hrun & Hcode).
    exists r, w'. split; [done|]. lia.
  - destruct (put_applications_bulk_status_answers req u w Hstaff) as (r & w' & Hrun & Hcode).
    exists r, w'. split; [done|]. lia.
Qed.

Lemma admin_is_admitted_to_status_routes_only_witness :
  let req := mkRequest (Some Demo.admin) {[ "id" := JStr "1" ]} {[ "status" := JStr "reviewed" ]} in
  post_application Demo.isInt Demo.isURL req Demo.world = (Return insufficient_permissions, Demo.world)
  ∧ delete_application_route req Demo.world = (Return insufficient_permissions, Demo.world)
  ∧ (∃ r w', put_application_status req Demo.world = (Return r, w') ∧ code r ≠ 401 ∧ code r ≠ 403)
  ∧ (∃ r w', put_applications_bulk_status req Demo.world = (Return r, w')
             ∧ code r ≠ 401 ∧ code r ≠ 403).
Proof.
  exact (admin_is_admitted_to_status_routes_only Demo.isInt Demo.isURL
           (mkRequest (Some Demo.admin) {[ "id" := JStr "1" ]} {[ "status" := JStr "reviewed" ]})
           Demo.admin Demo.world eq_refl eq_refl).
Defined.

(** C6, as stated, fails: an administrator is refused both the creation
    and the deletion of an application. *)
Lemma admin_is_denied_create_and_delete :
  post_application Demo.isInt Demo.isURL
    (mkRequest (Some Demo.admin) ∅ (Demo.application_body 200)) Demo.world
  = (Return (mkResponse 403 false NoData "Access denied. Insufficient permissions"), Demo.world)
  ∧ delete_application_route (mkRequest (Some Demo.admin) {[ "id" := JStr "1" ]} ∅) Demo.world
    = (Return (mkResponse 403 false NoData "Access denied. Insufficient permissions"), Demo.world).
Proof. split; reflexivity. Qed.

(** ** Creating an application *)

(** A call of [db.execute] is refused or rejected, the tables being left
    as they are, or the statement runs on these tables. *)
Lemma execute_cases {A} (params : list JSVal) (run : Async A) w :
  (∃ msg w1, execute params run w = (Throw msg, w1) ∧ applications w1 = applications w)
  ∨ (∃ v, execute params run w = run v
          ∧ applications v = applications w ∧ auto_increment v = auto_increment w
          ∧ now v = now w).
Proof.
  unfold execute. destruct (existsb is_undefined params); [left; by eauto|].
  destruct w as [? ? ? ? ? ? fs ?]; simpl.
  destruct fs as [|[e|] fs]; [right | left | right]; by eauto 10.
Qed.

(** What a statement that only reads leaves behind. *)
Lemma execute_read_tables {A} (params : list JSVal) (f : World → A) w o w' :
  execute params (λ w, (Return (f w), w)) w = (o, w') →
  applications w' = applications w.
Proof.
  unfold execute. destruct (existsb is_undefined params); [by intros [= _ <-]|].
  destruct w as [? ? ? ? ? ? fs ?]; simpl.
  destruct fs as [|[e|] fs]; by intros [= _ <-].
Qed.

Lemma findById_tables id w o w' :
  Application.findById id w = (o, w') → applications w' = applications w.
Proof.
  unfold Application.findById, select_application_by_id. unfold_async.
  destruct (execute _ _ w) as [[rows|e] w1] eqn:E; intros [= _ <-];
    by apply execute_read_tables in E.
Qed.

Lemma findByJobAndUser_tables jobOfferId userId w o w' :
  Application.findByJobAndUser jobOfferId userId w = (o, w') → applications w' = applications w.
Proof.
  unfold Application.findByJobAndUser, select_application_by_job_and_user. unfold_async.
  destruct (execute _ _ w) as [[rows|e] w1] eqn:E; intros [= _ <-];
    by apply execute_read_tables in E.
Qed.

Lemma create_check_tables jobOfferId userId w o w' :
  Application.create_check jobOfferId userId w = (o, w') → applications w' = applications w.
Proof.
  unfold Application.create_check. unfold_async.
  destruct (Application.findByJobAndUser _ _ w) as [[[a|]|e] w1] eqn:E; intros [= _ <-];
    by apply findByJobAndUser_tables in E.
Qed.

(** What the INSERT leaves behind: the table as it was, or the table with
    one more row, of a pair that no row had. *)
Lemma insert_application_tables jobOfferId userId coverLetter resumeUrl w o w' :
  insert_application jobOfferId userId coverLetter resumeUrl w = (o, w') →
  applications w' = applications w
  ∨ ∃ j u, sql_int jobOfferId = Some j ∧ sql_int userId = Some u
           ∧ (∀ r, r ∈ applications w → ¬ (a_job_offer_id r = j ∧ a_user_id r = u))
           ∧ applications w'
             = applications w
               ++ [mkApplicationRow (auto_increment w) j u coverLetter resumeUrl "pending" (now w) (now w)].
Proof.
  unfold insert_application.
  destruct (execute_cases [jobOfferId; userId; coverLetter; resumeUrl]
              (insert_application_row jobOfferId userId coverLetter resumeUrl) w)
    as [(msg & w1 & -> & Happ) | (v & -> & Happ & Hai & Hnow)].
  { intros [= _ <-]. by left. }
  unfold insert_application_row.
  destruct (sql_int jobOfferId) as [j|]; [|intros [= _ <-]; by left].
  destruct (sql_int userId) as [u|]; [|intros [= _ <-]; by left].
  destruct (existsb _ (applications v)) eqn:E; intros [= _ <-]; [by left|].
  right. exists j, u. repeat split; [|simpl; congruence].
  intros r Hr [Hj Hu]. rewrite <- Happ in Hr.
  assert (existsb (λ r, (a_job_offer_id r =? j) && (a_user_id r =? u)) (applications v) = true);
    [|congruence].
  apply existsb_exists. exists r. split; [by apply list_elem_of_In|].
  by rewrite Hj, Hu, !Z.eqb_refl.
Qed.

Lemma create_insert_tables jobOfferId userId coverLetter resumeUrl w o w' :
  Application.create_insert jobOfferId userId coverLetter resumeUrl w = (o, w') →
  applications w' = applications w
  ∨ ∃ j u, sql_int jobOfferId = Some j ∧ sql_int userId = Some u
           ∧ (∀ r, r ∈ applications w → ¬ (a_job_offer_id r = j ∧ a_user_id r = u))
           ∧ applications w'
             = applications w
               ++ [mkApplicationRow (auto_increment w) j u coverLetter resumeUrl "pending" (now w) (now w)].
Proof.
  unfold Application.create_insert. unfold_async.
  destruct (insert_application _ _ _ _ w) as [[insertId|e] w1] eqn:E.
  - destruct (Application.findById _ w1) as [[a|e] w2] eqn:F; intros [= _ <-];
      apply findById_tables in F; rewrite F; by apply insert_application_tables in E.
  - intros [= _ <-]. by apply insert_application_tables in E.
Qed.

Lemma create_tables applicationData w o w' :
  Application.create applicationData w = (o, w') →
  applications w' = applications w
  ∨ ∃ j u, sql_int (prop applicationData "jobOfferId") = Some j
           ∧ sql_int (prop applicationData "userId") = Some u
           ∧ (∀ r, r ∈ applications w → ¬ (a_job_offer_id r = j ∧ a_user_id r = u))
           ∧ ∃ new, applications w' = applications w ++ [new]
                    ∧ a_job_offer_id new = j ∧ a_user_id new = u.
Proof.
  unfold Application.create. unfold_async.
  destruct (Application.create_check _ _ w) as [[[]|e] w1] eqn:E.
  - intros F. apply create_check_tables in E. apply create_insert_tables in F.
    rewrite <- E. destruct F as [F | (j & u & Hj & Hu & Hfree & F)]; [by left|].
    right. exists j, u. repeat split; [done..|]. eauto.
  - intros [= _ <-]. left. by apply create_check_tables in E.
Qed.

Lemma same_pair_iff j u r : same_pair j u r = true ↔ a_job_offer_id r = j ∧ a_user_id r = u.
Proof.
  unfold same_pair, same_id, sql_int. rewrite andb_true_iff, !Z.eqb_eq.
  split; intros [? ?]; by split.
Qed.

Lemma filter_same_pair_absent j u rows :
  (∀ r, r ∈ rows → ¬ (a_job_offer_id r = j ∧ a_user_id r = u)) →
  List.filter (same_pair j u) rows = [].
Proof.
  induction rows as [|r rows IH]; intros Hrows; [done|]. simpl.
  destruct (same_pair j u r) eqn:E.
  - apply same_pair_iff in E. destruct (Hrows r); [by left | done].
  - apply IH. intros r' Hr'. apply Hrows. by right.
Qed.

Lemma filter_same_pair_present j u rows r :
  r ∈ rows → a_job_offer_id r = j → a_user_id r = u →
  is_Some (head (List.filter (same_pair j u) rows)).
Proof.
  intros Hr Hj Hu.
  assert (Hin : In r (List.filter (same_pair j u) rows)).
  { apply filter_In. split; [by apply list_elem_of_In | by apply same_pair_iff]. }
  destruct (List.filter (same_pair j u) rows); [done | by eexists].
Qed.

Lemma existsb_pair_absent j u rows :
  (∀ r, r ∈ rows → ¬ (a_job_offer_id r = j ∧ a_user_id r = u)) →
  existsb (λ r, (a_job_offer_id r =? j) && (a_user_id r =? u)) rows = false.
Proof.
  intros Hrows. destruct (existsb _ rows) eqn:E; [|done].
  apply existsb_exists in E as (r & Hr & Hp). apply list_elem_of_In in Hr.
  apply andb_true_iff in Hp as [Hj%Z.eqb_eq Hu%Z.eqb_eq]. by destruct (Hrows r Hr).
Qed.

Lemma existsb_pair_present j u rows r :
  r ∈ rows → a_job_offer_id r = j → a_user_id r = u →
  existsb (λ r, (a_job_offer_id r =? j) && (a_user_id r =? u)) rows = true.
Proof.
  intros Hr Hj Hu. apply existsb_exists. exists r.
  split; [by apply list_elem_of_In | by rewrite Hj, Hu, !Z.eqb_refl].
Qed.

Lemma filter_id_fresh i rows :
  (∀ r, r ∈ rows → a_id r < i) →
  List.filter (λ r, same_id (JNum i) (a_id r)) rows = [].
Proof.
  induction rows as [|r rows IH]; intros Hrows; [done|].
  simpl. unfold same_id at 1, sql_int.
  destruct (Z.eqb_spec i (a_id r)) as [Hi|_].
  - specialize (Hrows r (list_elem_of_here _ _)). lia.
  - apply IH. intros r' Hr'. apply Hrows. by right.
Qed.

Lemma filter_other_ids_fresh i rows :
  (∀ r, r ∈ rows → a_id r < i) →
  List.filter (λ r, negb (same_id (JNum i) (a_id r))) rows = rows.
Proof.
  induction rows as [|r rows IH]; intros Hrows; [done|].
  simpl. unfold same_id at 1, sql_int.
  destruct (Z.eqb_spec i (a_id r)) as [Hi|_]; simpl.
  - specialize (Hrows r (list_elem_of_here _ _)). lia.
  - f_equal. apply IH. intros r' Hr'. apply Hrows. by right.
Qed.

Lemma findByJobAndUser_healthy j u w :
  healthy w →
  Application.findByJobAndUser (JNum j) (JNum u) w
  = (Return (Application.new <$> head (List.filter (same_pair j u) (applications w))), w).
Proof.
  intros Hw. unfold Application.findByJobAndUser, select_application_by_job_and_user.
  unfold_async. by rewrite execute_healthy.
Qed.

Lemma create_check_present j u w r :
  healthy w → r ∈ applications w → a_job_offer_id r = j → a_user_id r = u →
  Application.create_check (JNum j) (JNum u) w = (Throw "You have already applied for this job", w).
Proof.
  intros Hw Hr Hj Hu. unfold Application.create_check. unfold_async.
  rewrite findByJobAndUser_healthy by done.
  by destruct (filter_same_pair_present j u _ r Hr Hj Hu) as [x ->].
Qed.

Lemma create_check_absent j u w :
  healthy w → absent j u w →
  Application.create_check (JNum j) (JNum u) w = (Return (), w).
Proof.
  intros Hw Habsent. unfold Application.create_check. unfold_async.
  rewrite findByJobAndUser_healthy by done. by rewrite filter_same_pair_absent.
Qed.

Lemma create_insert_present j u c r w row :
  healthy w → is_undefined c = false → is_undefined r = false →
  row ∈ applications w → a_job_offer_id row = j → a_user_id row = u →
  Application.create_insert (JNum j) (JNum u) c r w
  = (Throw ("Error creating application: " +:+ ER_DUP_ENTRY j u), w).
Proof.
  intros Hw Hc Hr Hrow Hj Hu. unfold Application.create_insert, insert_application. unfold_async.
  rewrite execute_healthy by (by destruct c, r).
  unfold insert_application_row. simpl.
  by rewrite (existsb_pair_present j u _ row).
Qed.

Lemma create_insert_absent j u c r w :
  healthy w → is_undefined c = false → is_undefined r = false →
  fresh_ids w → absent j u w →
  Application.create_insert (JNum j) (JNum u) c r w
  = (Return (Some (Application.mk (auto_increment w) j u c r "pending" (now w) (now w))),
     inserted j u c r w).
Proof.
  intros Hw Hc Hr Hfresh Habsent.
  unfold Application.create_insert, insert_application. unfold_async.
  rewrite execute_healthy by (by destruct c, r).
  unfold insert_application_row. simpl.
  rewrite existsb_pair_absent by done.
  rewrite findById_healthy by (by destruct w).
  fold (inserted j u c r w). f_equal.
  assert (Hrows : applications (inserted j u c r w)
                  = applications w
                    ++ [mkApplicationRow (auto_increment w) j u c r "pending" (now w) (now w)])
    by (by destruct w).
  rewrite Hrows, List.filter_app, filter_id_fresh by done.
  simpl. unfold same_id, sql_int. by rewrite Z.eqb_refl.
Qed.

Lemma create_application_data j u c r :
  Application.create (application_data j u c r)
  = (Application.create_check (JNum j) (JNum u) ;; Application.create_insert (JNum j) (JNum u) c r).
Proof. reflexivity. Qed.

Lemma delete_healthy this w :
  healthy w →
  Application.delete this w
  = (Return true,
     set_applications (List.filter (λ r, negb (same_id (JNum (Application.id this)) (a_id r)))) w).
Proof.
  intros Hw. unfold Application.delete, delete_application. unfold_async.
  by rewrite execute_healthy.
Qed.

Lemma unique_application_tables w w' (j u : Z) new :
  unique_application w →
  (∀ r, r ∈ applications w → ¬ (a_job_offer_id r = j ∧ a_user_id r = u)) →
  a_job_offer_id new = j → a_user_id new = u →
  applications w' = applications w ++ [new] →
  unique_application w'.
Proof.
  unfold unique_application. intros Hw Hfree Hj Hu ->.
  rewrite map_app. apply NoDup_app. split; [done|]. split; [|apply NoDup_singleton].
  intros p Hp. simpl. rewrite Hj, Hu. intros ->%list_elem_of_singleton.
  apply list_elem_of_fmap in Hp as (r & [= Hrj Hru] & Hr). by destruct (Hfree r Hr).
Qed.

(** C4, as the code has it.  The key [unique_application] keeps the
    table at one row per (job offer, applicant) through every [create],
    and through its insert taken alone, whatever the existence check saw.
    When such a row is there, [create] throws 'You have already applied
    for this job' and writes nothing.  When the conflict is met by the
    INSERT itself, it is caught and thrown again as the general 'Error
    creating application: ...' with the message of the store; nothing is
    written either. *)
Theorem applications_stay_unique :
  (∀ applicationData w,
      unique_application w → unique_application (Application.create applicationData w).2)
  ∧ (∀ jobOfferId userId coverLetter resumeUrl w,
      unique_application w →
      unique_application (Application.create_insert jobOfferId userId coverLetter resumeUrl w).2)
  ∧ (∀ j u c r w row,
      healthy w →
      row ∈ applications w → a_job_offer_id row = j → a_user_id row = u →
      Application.create (application_data j u c r) w
      = (Throw "You have already applied for this job", w))
  ∧ (∀ j u c r w row,
      healthy w →
      is_undefined c = false → is_undefined r = false →
      row ∈ applications w → a_job_offer_id row = j → a_user_id row = u →
      Application.create_insert (JNum j) (JNum u) c r w
      = (Throw ("Error creating application: " +:+ ER_DUP_ENTRY j u), w)).
Proof.
  split; [|split; [|split]].
  - intros data w Hw. destruct (Application.create data w) as [o w'] eqn:E.
    apply create_tables in E as [E | (j & u & _ & _ & Hfree & new & E & Hj & Hu)]; simpl.
    + unfold unique_application. by rewrite E.
    + eauto using unique_application_tables.
  - intros jobOfferId userId c r w Hw.
    destruct (Application.create_insert jobOfferId userId c r w) as [o w'] eqn:E.
    apply create_insert_tables in E as [E | (j & u & _ & _ & Hfree & E)]; simpl.
    + unfold unique_application. by rewrite E.
    + eapply (unique_application_tables w w' j u); [done | done | | | exact E]; reflexivity.
  - intros j u c r w row Hw Hrow Hj Hu. rewrite create_application_data. unfold_async.
    by rewrite (create_check_present j u w row).
  - intros j u c r w row Hw Hc Hr Hrow Hj Hu. by apply (create_insert_present j u c r w row).
Qed.

Lemma applications_stay_unique_witness :
  unique_application Demo.world
  ∧ unique_application
      (Application.create (application_data 200 5 (JStr "I would like to join.") (JStr "https://cv.example/5"))
                          Demo.world).2
  ∧ Application.create (application_data 100 5 (JStr "Once more.") (JStr "https://cv.example/5")) Demo.world
    = (Throw "You have already applied for this job", Demo.world)
  ∧ Application.create_insert (JNum 100) (JNum 5) (JStr "Once more.") (JStr "https://cv.example/5")
                              Demo.world
    = (Throw "Error creating application: Duplicate entry '100-5' for key 'applications.unique_application'",
       Demo.world).
Proof.
  assert (Hdemo : unique_application Demo.world).
  { by_decide. }
  destruct applications_stay_unique as (Hcreate & _ & Hcheck & Hinsert).
  split; [exact Hdemo|]. split; [exact (Hcreate _ _ Hdemo)|]. split.
  - apply (Hcheck 100 5 _ _ Demo.world Demo.pending_row); [reflexivity | | reflexivity | reflexivity].
    apply list_elem_of_here.
  - apply (Hinsert 100 5 _ _ Demo.world Demo.pending_row);
      [reflexivity | reflexivity | reflexivity | | reflexivity | reflexivity].
    apply list_elem_of_here.
Defined.

(** C4, as stated, fails.  Two requests for the same pair, both past the
    existence check before either inserts: the second INSERT meets the
    unique key, and the request ends with 'Error creating application:
    Duplicate entry ...', which is not the already-applied conflict. *)
Lemma conflict_on_insert_is_a_general_error :
  let c := JStr "I would like to join." in
  let r := JStr "https://cv.example/5" in
  ∃ a w1,
    Application.create_check (JNum 200) (JNum 5) Demo.world = (Return (), Demo.world)
    ∧ Application.create_check (JNum 200) (JNum 5) Demo.world = (Return (), Demo.world)
    ∧ Application.create_insert (JNum 200) (JNum 5) c r Demo.world = (Return (Some a), w1)
    ∧ Application.create_insert (JNum 200) (JNum 5) c r w1
      = (Throw "Error creating application: Duplicate entry '200-5' for key 'applications.unique_application'",
         w1)
    ∧ "Error creating application: Duplicate entry '200-5' for key 'applications.unique_application'"%string
      ≠ "You have already applied for this job"%string.
Proof. simpl. eexists _, _. repeat split. discriminate. Qed.

(** C8, as the code has it.  While the application is stored, a second
    [create] for the same job offer and applicant fails; once the
    applicant has deleted it, the row is gone and a new [create] for the
    same pair succeeds, with a new pending application. *)
Theorem reapplying_after_delete_succeeds j u c r w :
  healthy w →
  is_undefined c = false → is_undefined r = false →
  fresh_ids w →
  absent j u w →
  ∃ a w1 w2 a' w3,
    Application.create (application_data j u c r) w = (Return (Some a), w1)
    ∧ Application.create (application_data j u c r) w1
      = (Throw "You have already applied for this job", w1)
    ∧ Application.delete a w1 = (Return true, w2)
    ∧ Application.create (application_data j u c r) w2 = (Return (Some a'), w3)
    ∧ Application.jobOfferId a' = j ∧ Application.userId a' = u
    ∧ Application.status a' = "pending"%string
    ∧ Application.id a' ≠ Application.id a.
Proof.
  intros Hw Hc Hr Hfresh Habsent.
  set (new := mkApplicationRow (auto_increment w) j u c r "pending" (now w) (now w)).
  set (w1 := inserted j u c r w).
  set (w2 := set_applications (List.filter (λ x, negb (same_id (JNum (auto_increment w)) (a_id x)))) w1).
  assert (Hw1 : healthy w1) by (by destruct w).
  assert (Hw2 : healthy w2) by (by destruct w).
  assert (Hrows1 : applications w1 = applications w ++ [new]) by (by destruct w).
  assert (Hrows2 : applications w2 = applications w).
  { unfold w2. transitivity (List.filter (λ x, negb (same_id (JNum (auto_increment w)) (a_id x)))
                               (applications w1)); [by destruct w|].
    rewrite Hrows1, List.filter_app, filter_other_ids_fresh by done.
    simpl. unfold same_id, sql_int. rewrite Z.eqb_refl. simpl. apply app_nil_r. }
  assert (Hfresh2 : fresh_ids w2).
  { intros x Hx. rewrite Hrows2 in Hx. specialize (Hfresh x Hx).
    replace (auto_increment w2) with (auto_increment w + 1) by (by destruct w). lia. }
  assert (Habsent2 : absent j u w2).
  { intros x Hx. rewrite Hrows2 in Hx. by apply Habsent. }
  exists (Application.new new), w1, w2, (Application.mk (auto_increment w2) j u c r "pending" (now w2) (now w2)),
         (inserted j u c r w2).
  split; [|split; [|split; [|split]]].
  - rewrite create_application_data. unfold_async.
    rewrite create_check_absent by done. by apply create_insert_absent.
  - rewrite create_application_data. unfold_async.
    rewrite (create_check_present j u w1 new); [done..| |done|done].
    rewrite Hrows1. apply elem_of_app. right. apply list_elem_of_here.
  - by rewrite delete_healthy.
  - rewrite create_application_data. unfold_async.
    rewrite create_check_absent by done. by apply create_insert_absent.
  - repeat split. simpl. replace (auto_increment w2) with (auto_increment w + 1) by (by destruct w). lia.
Qed.

Lemma reapplying_after_delete_succeeds_witness :
  ∃ a w1 w2 a' w3,
    let data := application_data 200 5 (JStr "I would like to join.") (JStr "https://cv.example/5") in
    Application.create data Demo.world = (Return (Some a), w1)
    ∧ Application.create data w1 = (Throw "You have already applied for this job", w1)
    ∧ Application.delete a w1 = (Return true, w2)
    ∧ Application.create data w2 = (Return (Some a'), w3)
    ∧ Application.jobOfferId a' = 200 ∧ Application.userId a' = 5
    ∧ Application.status a' = "pending"%string
    ∧ Application.id a' ≠ Application.id a.
Proof.
  apply (reapplying_after_delete_succeeds 200 5 (JStr "I would like to join.")
           (JStr "https://cv.example/5") Demo.world).
  - reflexivity.
  - reflexivity.
  - reflexivity.
  - intros x Hx. unfold Demo.world in Hx. simpl in Hx.
    repeat (apply elem_of_cons in Hx as [->|Hx]; [simpl; lia|]). by apply elem_of_nil in Hx.
  - intros x Hx [Hj Hu]. unfold Demo.world in Hx. simpl in Hx.
    repeat (apply elem_of_cons in Hx as [->|Hx]; [discriminate|]). by apply elem_of_nil in Hx.
Defined.

(** C8, as stated, fails: the applicant applies, deletes the
    application, and applies again to the same job offer with success. *)
Lemma applicant_reapplies_after_delete :
  let data := application_data 200 5 (JStr "I would like to join.") (JStr "https://cv.example/5") in
  ∃ a w1 w2 a' w3,
    Application.create data Demo.world = (Return (Some a), w1)
    ∧ Application.delete a w1 = (Return true, w2)
    ∧ Application.create data w2 = (Return (Some a'), w3)
    ∧ Application.jobOfferId a = 200 ∧ Application.userId a = 5
    ∧ Application.jobOfferId a' = 200 ∧ Application.userId a' = 5.
Proof. simpl. eexists _, _, _, _, _. repeat split. Qed.

(** ** Whose application it is *)

Lemma prop_agree (body1 body2 : JSObject) (k : string) :
  delete "userId" body1 = delete "userId" body2 → k ≠ "userId"%string →
  prop body1 k = prop body2 k.
Proof.
  intros Hbody Hk. unfold prop.
  rewrite <- (lookup_delete_ne body1 "userId" k), <- (lookup_delete_ne body2 "userId" k) by done.
  by rewrite Hbody.
Qed.

Lemma spread_agree (body1 body2 : JSObject) (v : JSVal) :
  delete "userId" body1 = delete "userId" body2 →
  spread_with body1 "userId" v = spread_with body2 "userId" v.
Proof.
  intros Hbody. unfold spread_with.
  rewrite <- (insert_delete_eq body1), <- (insert_delete_eq body2). by rewrite Hbody.
Qed.

Lemma prop_spread_with (o : JSObject) (k : string) (v : JSVal) : prop (spread_with o k v) k = v.
Proof. unfold prop, spread_with. by rewrite lookup_insert_eq. Qed.

(** C10.  Two requests to create an application that differ at most in
    the [userId] of their bodies get the same answer and leave the same
    world; and a row that the request adds carries the id of the
    authenticated user. *)
Theorem applicant_is_the_authenticated_user
    (isInt isURL : string → bool) (u : User.t) (ps body1 body2 : JSObject) (w : World) :
  delete "userId" body1 = delete "userId" body2 →
  post_application isInt isURL (mkRequest (Some u) ps body1) w
  = post_application isInt isURL (mkRequest (Some u) ps body2) w
  ∧ ∀ response w' row,
      post_application isInt isURL (mkRequest (Some u) ps body1) w = (response, w') →
      row ∈ applications w' →
      row ∈ applications w ∨ a_user_id row = User.id u.
Proof.
  intros Hbody. split.
  - unfold post_application, validateApplication, requireRole. cbn [user body].
    rewrite !(prop_agree body1 body2) by done.
    case_bool_decide; [|done].
    by rewrite (spread_agree body1 body2 _ Hbody).
  - intros response w' row. unfold post_application.
    destruct (requireRole _ _) as [denied|req_user] eqn:Hrole; [intros [= _ <-]; by left|].
    assert (req_user = u) as ->.
    { revert Hrole. unfold requireRole. simpl. by case_bool_decide; intros [= ->]. }
    destruct (validateApplication _ _ _) as [invalid|]; [intros [= _ <-]; by left|].
    unfold_async. cbn [body].
    destruct (Application.create _ w) as [[a|e] w1] eqn:E; intros [= _ <-] Hrow;
      apply create_tables in E as [E | (j & i & _ & Hi & _ & new & E & _ & Hnew)];
      rewrite E in Hrow; try (by left).
    all: rewrite prop_spread_with in Hi; injection Hi as <-.
    all: apply elem_of_app in Hrow as [Hrow | ->%list_elem_of_singleton]; [by left | by right].
Qed.

Lemma applicant_is_the_authenticated_user_witness :
  let honest := Demo.application_body 200 in
  let forged := <[ "userId" := JNum 6 ]> (Demo.application_body 200) in
  post_application Demo.isInt Demo.isURL (mkRequest (Some Demo.seeker) ∅ honest) Demo.world
  = post_application Demo.isInt Demo.isURL (mkRequest (Some Demo.seeker) ∅ forged) Demo.world
  ∧ ∃ a w', post_application Demo.isInt Demo.isURL (mkRequest (Some Demo.seeker) ∅ forged) Demo.world
            = (Return (mkResponse 201 true (ApplicationData (Some a))
                                  "Application submitted successfully"), w')
            ∧ Application.userId a = 5.
Proof.
  split.
  - apply (applicant_is_the_authenticated_user Demo.isInt Demo.isURL Demo.seeker ∅
             (Demo.application_body 200) (<[ "userId" := JNum 6 ]> (Demo.application_body 200))
             Demo.world).
    vm_compute. reflexivity.
  - eexists _, _. split; [vm_compute; reflexivity | reflexivity].
Defined.

(** * Further properties of the model and of the routes *)

(** ** What an operation does to the applications table *)

Lemma same_applications_refl w : same_applications w w.
Proof. by repeat split. Qed.

Lemma same_applications_trans w1 w2 w3 :
  same_applications w1 w2 → same_applications w2 w3 → same_applications w1 w3.
Proof. unfold same_applications. intros (? & ? & ?) (? & ? & ?). repeat split; congruence. Qed.

Lemma execute_frame {A} (params : list JSVal) (run : Async A) w :
  (∃ msg w1, execute params run w = (Throw msg, w1) ∧ same_applications w w1)
  ∨ (∃ v, execute params run w = run v ∧ same_applications w v).
Proof.
  unfold execute. destruct (existsb is_undefined params).
  { left. eexists _, _. split; [done | apply same_applications_refl]. }
  destruct w as [? ? ? ? ? ? fs ?]; simpl.
  destruct fs as [|[e|] fs]; [right | left | right];
    repeat eexists; (reflexivity || by repeat split).
Qed.

Lemma read_frame {A} (params : list JSVal) (f : World → A) w o w' :
  execute params (λ w, (Return (f w), w)) w = (o, w') → same_applications w w'.
Proof.
  destruct (execute_frame params (λ w, (Return (f w), w)) w)
    as [(msg & w1 & -> & Hw1) | (v & -> & Hv)]; by intros [= _ <-].
Qed.

Lemma findById_frame id w o w' :
  Application.findById id w = (o, w') → same_applications w w'.
Proof.
  unfold Application.findById, select_application_by_id. unfold_async.
  destruct (execute _ _ w) as [[rows|e] w1] eqn:E; intros [= _ <-]; by apply read_frame in E.
Qed.

Lemma findByJobAndUser_frame jobOfferId userId w o w' :
  Application.findByJobAndUser jobOfferId userId w = (o, w') → same_applications w w'.
Proof.
  unfold Application.findByJobAndUser, select_application_by_job_and_user. unfold_async.
  destruct (execute _ _ w) as [[rows|e] w1] eqn:E; intros [= _ <-]; by apply read_frame in E.
Qed.

Lemma createStatusNotification_frame this s updatedBy w o w' :
  Application.createStatusNotification this s updatedBy w = (o, w') → same_applications w w'.
Proof.
  unfold Application.createStatusNotification.
  destruct (Application.statusMessage s) as [m|];
    [|intros [= _ <-]; apply same_applications_refl].
  unfold try_catch, insert_notification.
  destruct (execute_frame [JNum (Application.userId this); JStr "Application Status Update"; JStr m]
              (λ w, (Return (),
                     set_notifications
                       (λ t, t ++ [mkNotification (Application.userId this) "Application Status Update"
                                                  m "application_status"]) w)) w)
    as [(msg & w1 & -> & Hw1) | (v & -> & Hv)]; intros [= _ <-]; by destruct Hw1 || by destruct Hv.
Qed.

Lemma notify_each_frame ids s updatedBy w o w' :
  Application.notify_each ids s updatedBy w = (o, w') → same_applications w w'.
Proof.
  revert w. induction ids as [|appId ids IH]; intros w; simpl.
  { intros [= _ <-]. apply same_applications_refl. }
  unfold_async.
  destruct (Application.findById appId w) as [[app|e] w1] eqn:E;
    [|intros [= _ <-]; by apply findById_frame in E].
  apply findById_frame in E.
  destruct app as [app|].
  - destruct (Application.createStatusNotification app s updatedBy w1) as [[[]|e] w2] eqn:F;
      apply createStatusNotification_frame in F.
    + intros G%IH. eauto using same_applications_trans.
    + intros [= _ <-]. eauto using same_applications_trans.
  - intros G%IH. eauto using same_applications_trans.
Qed.

Lemma table_step_before w v rows counter :
  same_applications w v → table_step v rows counter → table_step w rows counter.
Proof.
  intros (Hrows & Hcounter & Hnow) [-> -> | j u c r Habsent -> -> | f Hf -> -> | keep -> ->].
  - by apply step_nothing.
  - apply (step_insert w _ _ j u c r); [|by rewrite Hrows, Hcounter, Hnow|by rewrite Hcounter].
    unfold absent in *. by rewrite <- Hrows.
  - apply (step_update w _ _ f); [done|by rewrite Hrows|done].
  - apply (step_delete w _ _ keep); [by rewrite Hrows|done].
Qed.

Lemma table_step_after w v w' :
  table_step w (applications v) (auto_increment v) → same_applications v w' →
  table_step w (applications w') (auto_increment w').
Proof. intros Hstep (-> & -> & _). done. Qed.

Lemma table_step_nothing w w' :
  same_applications w w' → table_step w (applications w') (auto_increment w').
Proof. intros (? & ? & _). by apply step_nothing. Qed.

Lemma insert_application_step jobOfferId userId coverLetter resumeUrl w o w' :
  insert_application jobOfferId userId coverLetter resumeUrl w = (o, w') →
  table_step w (applications w') (auto_increment w').
Proof.
  unfold insert_application.
  destruct (execute_frame [jobOfferId; userId; coverLetter; resumeUrl]
              (insert_application_row jobOfferId userId coverLetter resumeUrl) w)
    as [(msg & w1 & -> & Hw1) | (v & -> & Hv)].
  { intros [= _ <-]. by apply table_step_nothing. }
  intros Hrun. apply (table_step_before w v); [done|]. revert Hrun.
  unfold insert_application_row.
  destruct (sql_int jobOfferId) as [j|]; [|intros [= _ <-]; by apply step_nothing].
  destruct (sql_int userId) as [u|]; [|intros [= _ <-]; by apply step_nothing].
  destruct (existsb _ (applications v)) eqn:E; intros [= _ <-]; [by apply step_nothing|].
  apply (step_insert v _ _ j u coverLetter resumeUrl); [|by destruct v..].
  intros r Hr [Hj Hu].
  by rewrite (existsb_pair_present j u _ r) in E.
Qed.

Lemma with_status_keeps_identity s t (listed : ApplicationRow → bool) :
  s ∈ Application.validStatuses →
  keeps_identity (λ r, if listed r then with_status s t r else r).
Proof. intros Hs r. destruct (listed r); simpl; auto 10. Qed.

Lemma fold_assign_column_identity updates r :
  let r' := fold_left assign_column updates r in
  a_id r' = a_id r ∧ a_job_offer_id r' = a_job_offer_id r ∧ a_user_id r' = a_user_id r
  ∧ a_applied_at r' = a_applied_at r ∧ a_status r' = a_status r.
Proof.
  revert r. induction updates as [|update updates IH]; intros r; simpl; [done|].
  destruct (IH (assign_column r update)) as (-> & -> & -> & -> & ->).
  unfold assign_column. by repeat case_match.
Qed.

Lemma with_columns_keeps_identity updates t (listed : ApplicationRow → bool) :
  keeps_identity (λ r, if listed r then with_columns updates t r else r).
Proof.
  intros r. destruct (listed r); [|auto 10].
  destruct (fold_assign_column_identity updates r) as (? & ? & ? & ? & ?).
  unfold with_columns. simpl. auto 10.
Qed.

Lemma create_step applicationData w o w' :
  Application.create applicationData w = (o, w') →
  table_step w (applications w') (auto_increment w').
Proof.
  unfold Application.create, Application.create_check, Application.create_insert. unfold_async.
  destruct (Application.findByJobAndUser _ _ w) as [[existing|e] w1] eqn:E;
    apply findByJobAndUser_frame in E; [|intros [= _ <-]; by apply table_step_nothing].
  destruct existing; [intros [= _ <-]; by apply table_step_nothing|].
  destruct (insert_application _ _ _ _ w1) as [[insertId|e] w2] eqn:F;
    apply insert_application_step in F; apply (table_step_before w w1) in F; try done.
  - destruct (Application.findById _ w2) as [[a|e] w3] eqn:G; apply findById_frame in G;
      intros [= _ <-]; by apply (table_step_after w w2).
  - by intros [= _ <-].
Qed.

Lemma updateStatus_step this newStatus updatedBy w o w' :
  Application.updateStatus this newStatus updatedBy w = (o, w') →
  table_step w (applications w') (auto_increment w').
Proof.
  unfold Application.updateStatus.
  destruct (includes _ newStatus) as [s|] eqn:Hs; [|intros [= _ <-]; by apply table_step_nothing].
  apply includes_Some in Hs as [_ Hs].
  unfold_async. unfold update_application_status.
  destruct (execute_frame [JStr s; JNum (Application.id this)]
              (λ w, (Return (),
                     set_applications
                       (map (λ r, if same_id (JNum (Application.id this)) (a_id r)
                                  then with_status s (now w) r else r)) w)) w)
    as [(msg & w1 & -> & Hw1) | (v & -> & Hv)].
  { intros [= _ <-]. by apply table_step_nothing. }
  set (v' := set_applications _ v).
  assert (Hstep : table_step w (applications v') (auto_increment v')).
  { apply (table_step_before w v); [done|].
    apply (step_update v _ _ (λ r, if same_id (JNum (Application.id this)) (a_id r)
                                   then with_status s (now v) r else r));
      [by apply with_status_keeps_identity | by destruct v..]. }
  destruct (truthy updatedBy).
  - destruct (Application.createStatusNotification _ s updatedBy v') as [[[]|e] w2] eqn:F;
      apply createStatusNotification_frame in F; intros [= _ <-]; by apply (table_step_after w v').
  - by intros [= _ <-].
Qed.

Lemma bulkUpdateStatus_step applicationIds newStatus updatedBy w o w' :
  Application.bulkUpdateStatus applicationIds newStatus updatedBy w = (o, w') →
  table_step w (applications w') (auto_increment w').
Proof.
  unfold Application.bulkUpdateStatus.
  destruct (includes _ newStatus) as [s|] eqn:Hs; [|intros [= _ <-]; by apply table_step_nothing].
  apply includes_Some in Hs as [_ Hs].
  destruct (isArray applicationIds) as [[|id ids]|];
    [intros [= _ <-]; by apply table_step_nothing | | intros [= _ <-]; by apply table_step_nothing].
  unfold_async. unfold update_application_status_in.
  destruct (execute_frame (JStr s :: id :: ids)
              (λ w, (Return (),
                     set_applications
                       (map (λ r, if existsb (λ i, same_id i (a_id r)) (id :: ids)
                                  then with_status s (now w) r else r)) w)) w)
    as [(msg & w1 & -> & Hw1) | (v & -> & Hv)].
  { intros [= _ <-]. by apply table_step_nothing. }
  set (v' := set_applications _ v).
  assert (Hstep : table_step w (applications v') (auto_increment v')).
  { apply (table_step_before w v); [done|].
    apply (step_update v _ _ (λ r, if existsb (λ i, same_id i (a_id r)) (id :: ids)
                                   then with_status s (now v) r else r));
      [by apply with_status_keeps_identity | by destruct v..]. }
  destruct (truthy updatedBy).
  - destruct (Application.notify_each _ s updatedBy v') as [[[]|e] w2] eqn:F;
      apply notify_each_frame in F; intros [= _ <-]; by apply (table_step_after w v').
  - by intros [= _ <-].
Qed.

Lemma update_step this updateData w o w' :
  Application.update this updateData w = (o, w') →
  table_step w (applications w') (auto_increment w').
Proof.
  unfold Application.update.
  destruct (Application.kept_entries updateData) as [|update updates];
    [intros [= _ <-]; by apply table_step_nothing|].
  unfold_async. unfold update_application_columns.
  set (all := update :: updates).
  destruct (execute_frame (map snd all ++ [JNum (Application.id this)])
              (λ w, if forallb (λ u, String.eqb u.1 "cover_letter" || String.eqb u.1 "resume_url") all
                    then (Return (),
                          set_applications
                            (map (λ r, if same_id (JNum (Application.id this)) (a_id r)
                                       then with_columns all (now w) r else r)) w)
                    else (Throw ER_BAD_FIELD, w)) w)
    as [(msg & w1 & -> & Hw1) | (v & -> & Hv)].
  { intros [= _ <-]. by apply table_step_nothing. }
  destruct (forallb _ all); [|intros [= _ <-]; by apply table_step_nothing].
  set (v' := set_applications _ v).
  assert (Hstep : table_step w (applications v') (auto_increment v')).
  { apply (table_step_before w v); [done|].
    apply (step_update v _ _ (λ r, if same_id (JNum (Application.id this)) (a_id r)
                                   then with_columns all (now v) r else r));
      [by apply with_columns_keeps_identity | by destruct v..]. }
  destruct (Application.findById _ v') as [[a|e] w2] eqn:F; apply findById_frame in F;
    intros [= _ <-]; by apply (table_step_after w v').
Qed.

Lemma delete_step this w o w' :
  Application.delete this w = (o, w') →
  table_step w (applications w') (auto_increment w').
Proof.
  unfold Application.delete, delete_application. unfold_async.
  destruct (execute_frame [JNum (Application.id this)]
              (λ w, (Return (),
                     set_applications
                       (List.filter (λ r, negb (same_id (JNum (Application.id this)) (a_id r)))) w)) w)
    as [(msg & w1 & -> & Hw1) | (v & -> & Hv)].
  { intros [= _ <-]. by apply table_step_nothing. }
  intros [= _ <-]. apply (table_step_before w v); [done|].
  apply (step_delete v _ _ (λ r, negb (same_id (JNum (Application.id this)) (a_id r))));
    by destruct v.
Qed.

(** ** Invariants of the applications table *)

Lemma NoDup_map_filter {A B} (g : A → B) (keep : A → bool) (l : list A) :
  NoDup (map g l) → NoDup (map g (List.filter keep l)).
Proof.
  induction l as [|x l IH]; [done|]. simpl. intros [Hx Hl]%NoDup_cons.
  destruct (keep x); [|by apply IH]. simpl. apply NoDup_cons. split; [|by apply IH].
  intros (y & Hy & Hin)%list_elem_of_fmap. apply Hx. apply list_elem_of_fmap.
  exists y. split; [done|]. apply list_elem_of_In. apply list_elem_of_In in Hin.
  by apply filter_In in Hin as [? _].
Qed.

Lemma valid_statuses_step w rows counter :
  table_step w rows counter → valid_statuses w →
  ∀ r, r ∈ rows → a_status r ∈ Application.validStatuses.
Proof.
  intros [-> _ | j u c x _ -> _ | f Hf -> _ | keep -> _] Hw r Hr.
  - by apply Hw.
  - apply elem_of_app in Hr as [Hr | ->%list_elem_of_singleton]; [by apply Hw|]. by_decide.
  - apply list_elem_of_fmap in Hr as (r0 & -> & Hr0).
    destruct (Hf r0) as (_ & _ & _ & _ & [-> | Hs]); [by apply Hw | done].
  - apply Hw. apply list_elem_of_In. apply list_elem_of_In in Hr. by apply filter_In in Hr as [? _].
Qed.

Lemma primary_key_step w rows counter :
  table_step w rows counter → primary_key w →
  NoDup (map a_id rows) ∧ ∀ r, r ∈ rows → a_id r < counter.
Proof.
  intros [-> -> | j u c x _ -> -> | f Hf -> -> | keep -> ->] [Hnodup Hfresh].
  - done.
  - split.
    + rewrite map_app. apply NoDup_app. split; [done|]. split; [|apply NoDup_singleton].
      intros i (r & Hi & Hr)%list_elem_of_fmap Hnew%list_elem_of_singleton.
      specialize (Hfresh r Hr). simpl in *. lia.
    + intros r [Hr | ->%list_elem_of_singleton]%elem_of_app; [|simpl; lia].
      specialize (Hfresh r Hr). lia.
  - split.
    + rewrite map_map. erewrite map_ext; [exact Hnodup|]. intros r. by destruct (Hf r).
    + intros r (r0 & -> & Hr0)%list_elem_of_fmap. destruct (Hf r0) as [-> _]. by apply Hfresh.
  - split; [by apply NoDup_map_filter|].
    intros r Hr. apply Hfresh. apply list_elem_of_In. apply list_elem_of_In in Hr.
    by apply filter_In in Hr as [? _].
Qed.

Lemma unique_application_step w rows counter :
  table_step w rows counter → unique_application w →
  NoDup (map (λ r, (a_job_offer_id r, a_user_id r)) rows).
Proof.
  unfold unique_application.
  intros [-> _ | j u c x Habsent -> _ | f Hf -> _ | keep -> _] Hw.
  - done.
  - rewrite map_app. apply NoDup_app. split; [done|]. split; [|apply NoDup_singleton].
    intros p (r & Hp & Hr)%list_elem_of_fmap Hnew%list_elem_of_singleton.
    rewrite Hp in Hnew. injection Hnew as Hj Hu. by destruct (Habsent r Hr).
  - rewrite map_map. erewrite map_ext; [exact Hw|]. intros r. simpl.
    destruct (Hf r) as (_ & -> & -> & _). done.
  - by apply NoDup_map_filter.
Qed.

(** X1.  The statuses in the table stay among pending, reviewed,
    interview, accepted and rejected through every operation of the
    model, whatever its arguments and whatever the store rejects. *)
Theorem statuses_stay_valid w :
  valid_statuses w →
  (∀ applicationData, valid_statuses (Application.create applicationData w).2)
  ∧ (∀ this newStatus updatedBy, valid_statuses (Application.updateStatus this newStatus updatedBy w).2)
  ∧ (∀ applicationIds newStatus updatedBy,
       valid_statuses (Application.bulkUpdateStatus applicationIds newStatus updatedBy w).2)
  ∧ (∀ this updateData, valid_statuses (Application.update this updateData w).2)
  ∧ (∀ this, valid_statuses (Application.delete this w).2).
Proof.
  intros Hw. repeat split; intros.
  - destruct (Application.create _ w) as [o w'] eqn:E. apply create_step in E.
    intros r. by apply (valid_statuses_step w _ _ E).
  - destruct (Application.updateStatus _ _ _ w) as [o w'] eqn:E. apply updateStatus_step in E.
    intros r. by apply (valid_statuses_step w _ _ E).
  - destruct (Application.bulkUpdateStatus _ _ _ w) as [o w'] eqn:E. apply bulkUpdateStatus_step in E.
    intros r. by apply (valid_statuses_step w _ _ E).
  - destruct (Application.update _ _ w) as [o w'] eqn:E. apply update_step in E.
    intros r. by apply (valid_statuses_step w _ _ E).
  - destruct (Application.delete _ w) as [o w'] eqn:E. apply delete_step in E.
    intros r. by apply (valid_statuses_step w _ _ E).
Qed.

Lemma demo_valid_statuses : valid_statuses Demo.world.
Proof.
  intros r Hr. unfold Demo.world in Hr. simpl in Hr.
  repeat (apply elem_of_cons in Hr as [->|Hr]; [by_decide|]). by apply elem_of_nil in Hr.
Qed.

Lemma demo_primary_key : primary_key Demo.world.
Proof.
  split; [by_decide|]. intros r Hr. unfold Demo.world in Hr. simpl in Hr.
  repeat (apply elem_of_cons in Hr as [->|Hr]; [simpl; lia|]). by apply elem_of_nil in Hr.
Qed.

Lemma demo_unique_application : unique_application Demo.world.
Proof. by_decide. Qed.

Lemma statuses_stay_valid_witness :
  valid_statuses
    (Application.bulkUpdateStatus (JArr [JNum 1; JNum 2]) (JStr "interview") (JNum 1) Demo.world).2
  ∧ valid_statuses
      (Application.update (Application.new Demo.pending_row)
                          {[ "cover_letter" := JStr "A better letter."; "status" := JStr "accepted" ]}
                          Demo.world).2.
Proof.
  destruct (statuses_stay_valid Demo.world demo_valid_statuses) as (_ & _ & Hbulk & Hupdate & _).
  split; [apply Hbulk | apply Hupdate].
Defined.

(** X2.  The primary key of the table is kept by every operation of the
    model: no two rows share an id, and AUTO_INCREMENT stays above every
    id in use, so that an id is never given twice. *)
Theorem primary_key_is_kept w :
  primary_key w →
  (∀ applicationData, primary_key (Application.create applicationData w).2)
  ∧ (∀ this newStatus updatedBy, primary_key (Application.updateStatus this newStatus updatedBy w).2)
  ∧ (∀ applicationIds newStatus updatedBy,
       primary_key (Application.bulkUpdateStatus applicationIds newStatus updatedBy w).2)
  ∧ (∀ this updateData, primary_key (Application.update this updateData w).2)
  ∧ (∀ this, primary_key (Application.delete this w).2).
Proof.
  intros Hw. repeat split; intros.
  all: match goal with
       | |- context [Application.create ?d ?v] =>
           destruct (Application.create d v) as [o w'] eqn:E; apply create_step in E
       | |- context [Application.updateStatus ?a ?b ?c ?v] =>
           destruct (Application.updateStatus a b c v) as [o w'] eqn:E; apply updateStatus_step in E
       | |- context [Application.bulkUpdateStatus ?a ?b ?c ?v] =>
           destruct (Application.bulkUpdateStatus a b c v) as [o w'] eqn:E;
           apply bulkUpdateStatus_step in E
       | |- context [Application.update ?a ?b ?v] =>
           destruct (Application.update a b v) as [o w'] eqn:E; apply update_step in E
       | |- context [Application.delete ?a ?v] =>
           destruct (Application.delete a v) as [o w'] eqn:E; apply delete_step in E
       end.
  all: by destruct (primary_key_step w _ _ E Hw).
Qed.

Lemma primary_key_is_kept_witness :
  primary_key
    (Application.create (application_data 200 5 (JStr "I would like to join.") (JStr "https://cv.example/5"))
                        Demo.world).2
  ∧ primary_key (Application.delete (Application.new Demo.pending_row) Demo.world).2.
Proof.
  destruct (primary_key_is_kept Demo.world demo_primary_key) as (Hcreate & _ & _ & _ & Hdelete).
  split; [apply Hcreate | apply Hdelete].
Defined.

(** X3.  The unique key on (job offer, applicant) is kept by the
    operations that change or remove applications: no status update, bulk
    update, content update or deletion brings two applications of one
    applicant to one job offer. *)
Theorem unique_key_is_kept_by_updates w :
  unique_application w →
  (∀ this newStatus updatedBy,
      unique_application (Application.updateStatus this newStatus updatedBy w).2)
  ∧ (∀ applicationIds newStatus updatedBy,
       unique_application (Application.bulkUpdateStatus applicationIds newStatus updatedBy w).2)
  ∧ (∀ this updateData, unique_application (Application.update this updateData w).2)
  ∧ (∀ this, unique_application (Application.delete this w).2).
Proof.
  intros Hw. repeat split; intros.
  all: match goal with
       | |- context [Application.updateStatus ?a ?b ?c ?v] =>
           destruct (Application.updateStatus a b c v) as [o w'] eqn:E; apply updateStatus_step in E
       | |- context [Application.bulkUpdateStatus ?a ?b ?c ?v] =>
           destruct (Application.bulkUpdateStatus a b c v) as [o w'] eqn:E;
           apply bulkUpdateStatus_step in E
       | |- context [Application.update ?a ?b ?v] =>
           destruct (Application.update a b v) as [o w'] eqn:E; apply update_step in E
       | |- context [Application.delete ?a ?v] =>
           destruct (Application.delete a v) as [o w'] eqn:E; apply delete_step in E
       end.
  all: exact (unique_application_step w _ _ E Hw).
Qed.

Lemma unique_key_is_kept_by_updates_witness :
  unique_application
    (Application.updateStatus (Application.new Demo.pending_row) (JStr "reviewed") (JNum 1)
                              Demo.world).2
  ∧ unique_application (Application.delete (Application.new Demo.accepted_row) Demo.world).2.
Proof.
  destruct (unique_key_is_kept_by_updates Demo.world demo_unique_application)
    as (Hstatus & _ & _ & Hdelete).
  split; [apply Hstatus | apply Hdelete].
Defined.

(** ** Looking applications up *)







Lemma head_filter_id_deleted i rows :
  head (List.filter (λ r, same_id (JNum i) (a_id r))
                    (List.filter (λ r, negb (same_id (JNum i) (a_id r))) rows)) = None.
Proof.
  induction rows as [|r rows IH]; [done|]. simpl.
  destruct (same_id (JNum i) (a_id r)) eqn:E; simpl; [done|]. by rewrite E.
Qed.

Lemma find_other_id_deleted i k rows :
  k ≠ i →
  find (λ r, a_id r =? k) (List.filter (λ r, negb (same_id (JNum i) (a_id r))) rows)
  = find (λ r, a_id r =? k) rows.
Proof.
  intros Hk. induction rows as [|r rows IH]; [done|]. simpl. unfold same_id at 1, sql_int.
  destruct (Z.eqb_spec i (a_id r)) as [Hi|Hi]; simpl.
  - destruct (Z.eqb_spec (a_id r) k); [congruence | done].
  - by rewrite IH.
Qed.

(** X5.  Deleting an application removes the row of its id and nothing
    else: afterwards [findById] of that id gives null, and every other
    application is stored as before.  Deleting what is not there succeeds
    as well. *)
Theorem delete_removes_that_application_only this w :
  healthy w →
  ∃ w', Application.delete this w = (Return true, w')
        ∧ Application.findById (JNum (Application.id this)) w' = (Return None, w')
        ∧ (∀ k, k ≠ Application.id this →
                find (λ r, a_id r =? k) (applications w') = find (λ r, a_id r =? k) (applications w))
        ∧ notifications w' = notifications w.
Proof.
  intros Hw. rewrite delete_healthy by done. eexists. split; [reflexivity|].
  split; [|split].
  - rewrite findById_healthy by (by destruct w).
    replace (applications (set_applications _ w))
      with (List.filter (λ r, negb (same_id (JNum (Application.id this)) (a_id r))) (applications w))
      by (by destruct w).
    by rewrite head_filter_id_deleted.
  - intros k Hk.
    replace (applications (set_applications _ w))
      with (List.filter (λ r, negb (same_id (JNum (Application.id this)) (a_id r))) (applications w))
      by (by destruct w).
    by apply find_other_id_deleted.
  - by destruct w.
Qed.

Lemma delete_removes_that_application_only_witness :
  ∃ w', Application.delete (Application.new Demo.pending_row) Demo.world = (Return true, w')
        ∧ Application.findById (JNum 1) w' = (Return None, w')
        ∧ status_of w' 2 = Some "accepted"%string.
Proof.
  destruct (delete_removes_that_application_only (Application.new Demo.pending_row) Demo.world)
    as (w' & Hrun & Hgone & Hothers & _); [reflexivity|].
  exists w'. split; [exact Hrun|]. split; [exact Hgone|].
  unfold status_of. rewrite (Hothers 2); [reflexivity | discriminate].
Defined.




(** ** Updating the content of an application *)

Lemma elem_of_kept_entries key value (updateData : JSObject) :
  (key, value) ∈ Application.kept_entries updateData
  ↔ updateData !! key = Some value ∧ key ∈ Application.allowedFields ∧ is_undefined value = false.
Proof.
  unfold Application.kept_entries.
  rewrite list_elem_of_In, filter_In, <- list_elem_of_In, elem_of_map_to_list. simpl.
  rewrite andb_true_iff, bool_decide_eq_true, negb_true_iff. tauto.
Qed.

Lemma NoDup_kept_entries (updateData : JSObject) :
  NoDup (map fst (Application.kept_entries updateData)).
Proof. apply NoDup_map_filter. apply (NoDup_fst_map_to_list updateData). Qed.

Lemma find_kept_entry k (updateData : JSObject) :
  k ∈ Application.allowedFields →
  snd <$> find (λ e, String.eqb e.1 k) (Application.kept_entries updateData)
  = if is_undefined (prop updateData k) then None else Some (prop updateData k).
Proof.
  intros Hk. destruct (find _ _) as [[key value]|] eqn:E; simpl.
  - apply find_some in E as [Hin Hkey]. simpl in Hkey. apply String.eqb_eq in Hkey. subst key.
    apply list_elem_of_In, elem_of_kept_entries in Hin as (Hlookup & _ & Hdefined).
    unfold prop. rewrite Hlookup. simpl. by rewrite Hdefined.
  - destruct (is_undefined (prop updateData k)) eqn:Hdefined; [done|]. exfalso.
    unfold prop in Hdefined. destruct (updateData !! k) as [value|] eqn:Hlookup; [|done].
    simpl in Hdefined.
    assert (Hin : (k, value) ∈ Application.kept_entries updateData)
      by (by apply elem_of_kept_entries).
    apply list_elem_of_In in Hin. apply (find_none _ _ E) in Hin. simpl in Hin.
    by rewrite String.eqb_refl in Hin.
Qed.

Lemma kept_entries_defined (updateData : JSObject) (id : JSVal) :
  is_undefined id = false →
  existsb is_undefined (map snd (Application.kept_entries updateData) ++ [id]) = false.
Proof.
  intros Hid. rewrite existsb_app. simpl. rewrite Hid. rewrite !orb_false_r.
  destruct (existsb _ _) eqn:E; [|done].
  apply existsb_exists in E as (value & Hin & Hvalue).
  apply in_map_iff in Hin as ([key value'] & <- & Hin).
  apply list_elem_of_In, elem_of_kept_entries in Hin as (_ & _ & Hdefined). simpl in *. congruence.
Qed.

Lemma kept_entries_known (updateData : JSObject) :
  forallb (λ u, String.eqb u.1 "cover_letter" || String.eqb u.1 "resume_url")
          (Application.kept_entries updateData) = true.
Proof.
  apply forallb_forall. intros [key value] Hin.
  apply list_elem_of_In, elem_of_kept_entries in Hin as (_ & Hkey & _). simpl.
  apply elem_of_cons in Hkey as [-> | Hkey]; [done|].
  apply elem_of_cons in Hkey as [-> | Hkey]; [done|]. by apply elem_of_nil in Hkey.
Qed.

Lemma fold_assign_cover_letter updates r :
  NoDup (map fst updates) →
  a_cover_letter (fold_left assign_column updates r)
  = default (a_cover_letter r) (snd <$> find (λ e, String.eqb e.1 "cover_letter") updates).
Proof.
  revert r. induction updates as [|[key value] updates IH]; intros r; [done|].
  simpl. intros [Hkey Hnodup]%NoDup_cons. rewrite IH by done.
  unfold assign_column. simpl. destruct (String.eqb_spec key "cover_letter") as [->|Hne]; simpl.
  - destruct (find _ updates) as [[key' value']|] eqn:E; [|done].
    apply find_some in E as [Hin Hk]. simpl in Hk. apply String.eqb_eq in Hk. subst key'.
    destruct Hkey. apply list_elem_of_fmap. exists ("cover_letter"%string, value').
    split; [done | by apply list_elem_of_In].
  - by destruct (String.eqb key "resume_url").
Qed.

Lemma fold_assign_resume_url updates r :
  NoDup (map fst updates) →
  a_resume_url (fold_left assign_column updates r)
  = default (a_resume_url r) (snd <$> find (λ e, String.eqb e.1 "resume_url") updates).
Proof.
  revert r. induction updates as [|[key value] updates IH]; intros r; [done|].
  simpl. intros [Hkey Hnodup]%NoDup_cons. rewrite IH by done.
  unfold assign_column. simpl. destruct (String.eqb_spec key "resume_url") as [->|Hne]; simpl.
  - destruct (find _ updates) as [[key' value']|] eqn:E; [|done].
    apply find_some in E as [Hin Hk]. simpl in Hk. apply String.eqb_eq in Hk. subst key'.
    destruct Hkey. apply list_elem_of_fmap. exists ("resume_url"%string, value').
    split; [done | by apply list_elem_of_In].
  - by destruct (String.eqb key "cover_letter").
Qed.

(** X7.  [update] with a value for [cover_letter], for [resume_url] or
    for both stores exactly these values in the row of the application,
    dates the row of the time of the update, leaves its status, job
    offer, applicant and date of application as they were, and returns
    the application read back.  Whatever else the object holds (a
    [status], a [user_id]) is ignored. *)
Theorem update_sets_the_given_columns this (updateData : JSObject) w row :
  healthy w →
  find (λ r, a_id r =? Application.id this) (applications w) = Some row →
  is_undefined (prop updateData "cover_letter") = false
  ∨ is_undefined (prop updateData "resume_url") = false →
  let given k old := if is_undefined (prop updateData k) then old else prop updateData k in
  let row' := mkApplicationRow (a_id row) (a_job_offer_id row) (a_user_id row)
                               (given "cover_letter"%string (a_cover_letter row))
                               (given "resume_url"%string (a_resume_url row))
                               (a_status row) (a_applied_at row) (now w) in
  ∃ w', Application.update this updateData w = (Return (Some (Application.new row')), w')
        ∧ find (λ r, a_id r =? Application.id this) (applications w') = Some row'.
Proof.
  intros Hw Hrow Hgiven given row'.
  assert (Hsome : Application.kept_entries updateData ≠ []).
  { intros Hnil.
    assert (∃ k, k ∈ Application.allowedFields ∧ is_undefined (prop updateData k) = false)
      as (k & Hk & Hdefined).
    { destruct Hgiven; [exists "cover_letter"%string | exists "resume_url"%string];
        (split; [by_decide | done]). }
    pose proof (find_kept_entry k updateData Hk) as Hfind.
    rewrite Hnil, Hdefined in Hfind. discriminate. }
  set (f := λ r, if same_id (JNum (Application.id this)) (a_id r)
                 then with_columns (Application.kept_entries updateData) (now w) r else r).
  assert (Hf : ∀ r, a_id (f r) = a_id r).
  { intros r. by destruct (with_columns_keeps_identity (Application.kept_entries updateData) (now w)
                              (λ r, same_id (JNum (Application.id this)) (a_id r)) r). }
  assert (Hid : a_id row = Application.id this).
  { apply find_some in Hrow as [_ Hi]. by apply Z.eqb_eq in Hi. }
  assert (Hrow' : f row = row').
  { unfold f, same_id, sql_int. rewrite Hid, Z.eqb_refl. unfold with_columns, row', given.
    destruct (fold_assign_column_identity (Application.kept_entries updateData) row)
      as (-> & -> & -> & -> & ->).
    rewrite fold_assign_cover_letter, fold_assign_resume_url by apply NoDup_kept_entries.
    rewrite !find_kept_entry by by_decide.
    by destruct (is_undefined (prop updateData "cover_letter")),
                (is_undefined (prop updateData "resume_url")). }
  exists (set_applications (map f) w).
  assert (Hrun : Application.update this updateData w
                 = (Return (Some (Application.new row')), set_applications (map f) w)).
  { unfold Application.update.
    destruct (Application.kept_entries updateData) as [|entry entries] eqn:Hkept in |- *; [done|].
    rewrite <- Hkept. unfold_async. unfold update_application_columns.
    rewrite execute_healthy by first [done | by apply kept_entries_defined].
    rewrite kept_entries_known. fold f.
    rewrite findById_healthy by (by destruct w).
    replace (applications (set_applications (map f) w)) with (map f (applications w))
      by (by destruct w).
    by rewrite head_filter_by_id, find_id_map, Hrow, <- Hrow' by done. }
  split; [done|].
  replace (applications (set_applications (map f) w)) with (map f (applications w))
    by (by destruct w).
  by rewrite find_id_map, Hrow, <- Hrow' by done.
Qed.

Lemma update_sets_the_given_columns_witness :
  ∃ w', Application.update (Application.new Demo.pending_row)
                           {[ "cover_letter" := JStr "A better letter."; "status" := JStr "accepted";
                              "user_id" := JNum 6 ]} Demo.world
        = (Return (Some (Application.mk 1 100 5 (JStr "A better letter.") (JStr "https://cv.example/5")
                                        "pending" 10 1000)), w')
        ∧ status_of w' 1 = Some "pending"%string.
Proof.
  destruct (update_sets_the_given_columns (Application.new Demo.pending_row)
              {[ "cover_letter" := JStr "A better letter."; "status" := JStr "accepted";
                 "user_id" := JNum 6 ]} Demo.world Demo.pending_row)
    as (w' & Hrun & Hrow); [reflexivity | reflexivity | left; reflexivity |].
  exists w'. split; [exact Hrun|]. unfold status_of. simpl in Hrow. by rewrite Hrow.
Defined.

(** X8.  [update] with an object that gives neither [cover_letter] nor
    [resume_url] throws 'No valid fields to update' before any statement
    is sent: so it is, in particular, with the names [coverLetter] and
    [resumeUrl] under which [create] takes the same two values. *)
Theorem update_without_a_column_is_refused this (updateData : JSObject) w :
  is_undefined (prop updateData "cover_letter") = true →
  is_undefined (prop updateData "resume_url") = true →
  Application.update this updateData w = (Throw "No valid fields to update", w).
Proof.
  intros Hcover Hresume. unfold Application.update.
  destruct (Application.kept_entries updateData) as [|[key value] entries] eqn:Hkept; [done|].
  assert (Hin : (key, value) ∈ Application.kept_entries updateData)
    by (rewrite Hkept; apply list_elem_of_here).
  apply elem_of_kept_entries in Hin as (Hlookup & Hkey & Hdefined).
  assert (prop updateData key = value) as Hprop by (unfold prop; by rewrite Hlookup).
  apply elem_of_cons in Hkey as [-> | Hkey]; [congruence|].
  apply elem_of_cons in Hkey as [-> | Hkey]; [congruence|]. by apply elem_of_nil in Hkey.
Qed.

Lemma update_without_a_column_is_refused_witness :
  Application.update (Application.new Demo.pending_row)
                     {[ "coverLetter" := JStr "A better letter.";
                        "resumeUrl" := JStr "https://cv.example/5b" ]} Demo.world
  = (Throw "No valid fields to update", Demo.world).
Proof.
  apply (update_without_a_column_is_refused (Application.new Demo.pending_row)
           {[ "coverLetter" := JStr "A better letter."; "resumeUrl" := JStr "https://cv.example/5b" ]}
           Demo.world); reflexivity.
Defined.

(** ** Counting applications by status *)

Lemma sum_case_status_nonneg s rows :
  0 ≤ foldr Z.add 0 (map (λ r, if String.eqb (a_status r) s then 1 else 0) rows).
Proof. induction rows as [|r rows IH]; simpl; [lia|]. destruct (String.eqb _ s); lia. Qed.

Lemma sum_case_statuses rows :
  (∀ r, r ∈ rows → a_status r ∈ Application.validStatuses) →
  foldr Z.add 0 (map (λ r, if String.eqb (a_status r) "pending" then 1 else 0) rows)
  + foldr Z.add 0 (map (λ r, if String.eqb (a_status r) "reviewed" then 1 else 0) rows)
  + foldr Z.add 0 (map (λ r, if String.eqb (a_status r) "interview" then 1 else 0) rows)
  + foldr Z.add 0 (map (λ r, if String.eqb (a_status r) "accepted" then 1 else 0) rows)
  + foldr Z.add 0 (map (λ r, if String.eqb (a_status r) "rejected" then 1 else 0) rows)
  = Z.of_nat (length rows).
Proof.
  induction rows as [|r rows IH]; intros Hrows; [done|].
  specialize (IH (λ x Hx, Hrows x (list_elem_of_further _ _ _ Hx))).
  specialize (Hrows r (list_elem_of_here _ _)).
  cbn [map foldr length]. rewrite Nat2Z.inj_succ.
  repeat (apply elem_of_cons in Hrows as [-> | Hrows]; [simpl String.eqb; lia|]).
  by apply elem_of_nil in Hrows.
Qed.

Lemma status_counts_add_up rows :
  (∀ r, r ∈ rows → a_status r ∈ Application.validStatuses) →
  sc_total (status_counts rows) = Z.of_nat (length rows) ∧ adds_up (status_counts rows).
Proof.
  intros Hrows. split; [done|]. destruct rows as [|r rows]; [left; by repeat split|].
  right. unfold status_counts, sum_case_status, sql_sum. cbn [map].
  eexists _, _, _, _, _. repeat (split; [reflexivity|]).
  repeat (split; [apply (sum_case_status_nonneg _ (r :: rows))|]).
  split; [cbn [sc_total length]; lia|].
  apply (sum_case_statuses (r :: rows) Hrows).
Qed.

(** X9.  The counts that [getJobApplicationStats] gives for a job offer
    are consistent: the total is the number of applications to that job
    offer, and the counts of pending, reviewed, interview, accepted and
    rejected applications add up to it; for a job offer without
    applications the total is 0 and the five sums are NULL. *)
Theorem job_application_stats_add_up j w :
  healthy w →
  valid_statuses w →
  ∃ counts,
    Application.getJobApplicationStats (JNum j) w = (Return counts, w)
    ∧ sc_total counts
      = Z.of_nat (length (List.filter (λ r, j =? a_job_offer_id r) (applications w)))
    ∧ adds_up counts.
Proof.
  intros Hw Hvalid. unfold Application.getJobApplicationStats, select_status_counts_by_job.
  unfold_async. rewrite execute_healthy by done.
  eexists. split; [reflexivity|].
  apply status_counts_add_up. intros r Hr. apply Hvalid.
  apply list_elem_of_In. apply list_elem_of_In in Hr. by apply filter_In in Hr as [? _].
Qed.

Lemma job_application_stats_add_up_witness :
  Application.getJobApplicationStats (JNum 100) Demo.world
  = (Return (mkStatusCounts 2 (Some 1) (Some 0) (Some 0) (Some 1) (Some 0)), Demo.world)
  ∧ Application.getJobApplicationStats (JNum 200) Demo.world
    = (Return (mkStatusCounts 0 None None None None None), Demo.world)
  ∧ ∃ counts, Application.getJobApplicationStats (JNum 100) Demo.world = (Return counts, Demo.world)
              ∧ sc_total counts
                = Z.of_nat (length (List.filter (λ r, 100 =? a_job_offer_id r) (applications Demo.world)))
              ∧ adds_up counts.
Proof.
  split; [reflexivity|]. split; [reflexivity|].
  apply (job_application_stats_add_up 100 Demo.world); [reflexivity | exact demo_valid_statuses].
Defined.



(** ** The notifications of a bulk update *)

Lemma notify_each_notifications ids s updatedBy w :
  healthy w →
  existsb is_undefined ids = false →
  ∃ w', Application.notify_each ids s updatedBy w = (Return (), w')
        ∧ healthy w' ∧ applications w' = applications w
        ∧ notifications w'
          = notifications w
            ++ match Application.statusMessage s with
               | Some m => map (λ u, status_notification u m)
                               (resolved_applicants ids (applications w))
               | None => []
               end.
Proof.
  revert w. induction ids as [|appId ids IH]; intros w Hw Hids.
  { exists w. repeat split; [done|].
    unfold resolved_applicants. destruct (Application.statusMessage s); simpl; by rewrite app_nil_r. }
  simpl in Hids. apply orb_false_iff in Hids as [HappId Hids].
  cbn [Application.notify_each]. unfold_async.
  unfold Application.findById, select_application_by_id. unfold_async.
  rewrite execute_healthy by (simpl; by rewrite ?HappId).
  cbn [resolved_applicants omap list_omap].
  destruct (head (List.filter _ (applications w))) as [row|]; cbn [fmap option_fmap option_map].
  - rewrite createStatusNotification_healthy by done.
    destruct (Application.statusMessage s) as [m|] eqn:Hm.
    + destruct (IH (set_notifications
                      (λ t, t ++ [mkNotification (Application.userId (Application.new row))
                                                 "Application Status Update" m "application_status"]) w))
        as (w' & -> & Hw' & Happ & Hnot); [by destruct w | done |].
      exists w'. split; [done|]. split; [done|]. split; [by rewrite Happ; destruct w|].
      rewrite Hnot. replace (applications (set_notifications _ w)) with (applications w)
        by (by destruct w).
      replace (notifications (set_notifications _ w))
        with (notifications w ++ [status_notification (a_user_id row) m]) by (by destruct w).
      by rewrite <- app_assoc.
    + destruct (IH w Hw Hids) as (w' & -> & Hw' & Happ & Hnot).
      exists w'. by rewrite Hnot.
  - destruct (IH w Hw Hids) as (w' & -> & Hw' & Happ & Hnot). exists w'.
    repeat split; [done..|]. rewrite Hnot. by destruct (Application.statusMessage s).
Qed.

Lemma resolved_applicants_map f ids rows :
  keeps_identity f →
  resolved_applicants ids (map f rows) = resolved_applicants ids rows.
Proof.
  intros Hf. unfold resolved_applicants.
  induction ids as [|id ids IH]; [done|]. cbn [omap list_omap]. rewrite IH.
  replace (a_user_id <$> head (List.filter (λ r, same_id id (a_id r)) (map f rows)))
    with (a_user_id <$> head (List.filter (λ r, same_id id (a_id r)) rows)); [done|].
  clear IH. induction rows as [|r rows IHrows]; [done|]. simpl.
  destruct (Hf r) as (-> & _ & Hu & _).
  destruct (same_id id (a_id r)); simpl; [by rewrite Hu | done].
Qed.

(** X11.  A bulk update made on behalf of a user, with the store taking
    the statements, stores one notification per listed id that resolves
    to an application, in the order of the list, each addressed to the
    applicant of that application and carrying the message of the new
    status; ids that resolve to nothing give none, an id listed twice
    gives two, and a bulk update to pending gives none at all. *)
Theorem bulk_update_notifies_each_resolved_applicant id ids s updatedBy w :
  healthy w →
  existsb is_undefined (id :: ids) = false →
  s ∈ Application.validStatuses →
  truthy updatedBy = true →
  ∃ w', Application.bulkUpdateStatus (JArr (id :: ids)) (JStr s) updatedBy w = (Return true, w')
        ∧ notifications w'
          = notifications w
            ++ match Application.statusMessage s with
               | Some m => map (λ u, status_notification u m)
                               (resolved_applicants (id :: ids) (applications w))
               | None => []
               end.
Proof.
  intros Hw Hids Hs Hby. unfold Application.bulkUpdateStatus.
  rewrite includes_valid by done. cbn [isArray].
  unfold_async. unfold update_application_status_in.
  rewrite execute_healthy by done. rewrite Hby.
  set (f := λ r, if existsb (λ i, same_id i (a_id r)) (id :: ids)
                 then with_status s (now w) r else r).
  destruct (notify_each_notifications (id :: ids) s updatedBy (set_applications (map f) w))
    as (w' & -> & _ & _ & Hnot); [by destruct w | done |].
  exists w'. split; [done|]. rewrite Hnot.
  replace (applications (set_applications (map f) w)) with (map f (applications w))
    by (by destruct w).
  replace (notifications (set_applications (map f) w)) with (notifications w) by (by destruct w).
  rewrite resolved_applicants_map; [done|].
  by apply (with_status_keeps_identity s (now w) (λ r, existsb (λ i, same_id i (a_id r)) (id :: ids))).
Qed.

Lemma bulk_update_notifies_each_resolved_applicant_witness :
  ∃ w', Application.bulkUpdateStatus (JArr [JNum 2; JNum 77; JNum 1; JNum 2]) (JStr "interview")
                                     (JNum 1) Demo.world = (Return true, w')
        ∧ notifications w'
          = [status_notification 6 "You have been invited for an interview";
             status_notification 5 "You have been invited for an interview";
             status_notification 6 "You have been invited for an interview"].
Proof.
  destruct (bulk_update_notifies_each_resolved_applicant (JNum 2) [JNum 77; JNum 1; JNum 2]
              "interview" (JNum 1) Demo.world) as (w' & Hrun & Hnot);
    [reflexivity | reflexivity | by_decide | reflexivity |].
  exists w'. split; [exact Hrun | exact Hnot].
Defined.

(** ** When the store rejects the write *)

(** X12.  When the store rejects the UPDATE of [updateStatus] or of
    [bulkUpdateStatus], the method throws its own error with the message
    of the store, and nothing has changed: no status, no notification, no
    line on the console. *)
Theorem rejected_status_update_changes_nothing this id ids s updatedBy w error fs :
  faults w = Some error :: fs →
  s ∈ Application.validStatuses →
  existsb is_undefined (id :: ids) = false →
  Application.updateStatus this (JStr s) updatedBy w
  = (Throw ("Error updating application status: " +:+ error), set_faults fs w)
  ∧ Application.bulkUpdateStatus (JArr (id :: ids)) (JStr s) updatedBy w
    = (Throw ("Error bulk updating applications: " +:+ error), set_faults fs w)
  ∧ applications (set_faults fs w) = applications w
  ∧ notifications (set_faults fs w) = notifications w
  ∧ console (set_faults fs w) = console w.
Proof.
  intros Hfaults Hs Hids. split; [|split].
  - unfold Application.updateStatus. rewrite includes_valid by done.
    unfold_async. unfold update_application_status.
    by erewrite execute_rejected.
  - unfold Application.bulkUpdateStatus. rewrite includes_valid by done. cbn [isArray].
    unfold_async. unfold update_application_status_in.
    by erewrite execute_rejected.
  - by destruct w.
Qed.

Lemma rejected_status_update_changes_nothing_witness :
  let w := set_faults [Some "Lock wait timeout exceeded"%string] Demo.world in
  Application.updateStatus (Application.new Demo.pending_row) (JStr "accepted") (JNum 1) w
  = (Throw "Error updating application status: Lock wait timeout exceeded", Demo.world)
  ∧ Application.bulkUpdateStatus (JArr [JNum 1; JNum 2]) (JStr "accepted") (JNum 1) w
    = (Throw "Error bulk updating applications: Lock wait timeout exceeded", Demo.world).
Proof.
  destruct (rejected_status_update_changes_nothing (Application.new Demo.pending_row)
              (JNum 1) [JNum 2] "accepted" (JNum 1)
              (set_faults [Some "Lock wait timeout exceeded"%string] Demo.world)
              "Lock wait timeout exceeded" [])
    as (Hsingle & Hbulk & _); [reflexivity | by_decide | reflexivity |].
  split; [exact Hsingle | exact Hbulk].
Defined.

(** ** The routes: who is let in, and what is refused *)

Lemma sql_int_defined id i : sql_int id = Some i → is_undefined id = false.
Proof. by destruct id. Qed.

Lemma findById_healthy_param id i w :
  healthy w → sql_int id = Some i →
  Application.findById id w
  = (Return (Application.new <$> find (λ r, a_id r =? i) (applications w)), w).
Proof.
  intros Hw Hid. unfold Application.findById, select_application_by_id. unfold_async.
  rewrite execute_healthy by (simpl; by rewrite ?(sql_int_defined id i)).
  rewrite <- head_filter_by_id. do 4 f_equal.
  apply List.filter_ext. intros r. unfold same_id. by rewrite Hid.
Qed.

Lemma update_refused this (updateData : JSObject) w :
  is_undefined (prop updateData "cover_letter") = true →
  is_undefined (prop updateData "resume_url") = true →
  Application.update this updateData w = (Throw "No valid fields to update", w).
Proof.
  intros Hcover Hresume. unfold Application.update.
  destruct (Application.kept_entries updateData) as [|[key value] entries] eqn:Hkept; [done|].
  assert (Hin : (key, value) ∈ Application.kept_entries updateData)
    by (rewrite Hkept; apply list_elem_of_here).
  apply elem_of_kept_entries in Hin as (Hlookup & Hkey & Hdefined).
  assert (prop updateData key = value) as Hprop by (unfold prop; by rewrite Hlookup).
  apply elem_of_cons in Hkey as [-> | Hkey]; [congruence|].
  apply elem_of_cons in Hkey as [-> | Hkey]; [congruence|]. by apply elem_of_nil in Hkey.
Qed.



(** X14.  Deleting through the route is for the applicant alone.  For a
    job seeker and an id that resolves to an application of somebody
    else, the route answers 403 'Access denied' and deletes nothing; for
    an id that resolves to nothing, 404; for the applicant's own
    application, 200, and the row is gone while every other application
    stays. *)
Theorem delete_route_is_for_the_applicant req u i w :
  healthy w →
  user req = Some u → User.userType u = "job_seeker"%string →
  sql_int (prop (params req) "id") = Some i →
  match find (λ r, a_id r =? i) (applications w) with
  | None =>
      delete_application_route req w
      = (Return (mkResponse 404 false NoData "Application not found"), w)
  | Some row =>
      (a_user_id row ≠ User.id u →
         delete_application_route req w = (Return (mkResponse 403 false NoData "Access denied"), w))
      ∧ (a_user_id row = User.id u →
         ∃ w', delete_application_route req w
               = (Return (mkResponse 200 true NoData "Application deleted successfully"), w')
               ∧ find (λ r, a_id r =? i) (applications w') = None
               ∧ ∀ k, k ≠ i → find (λ r, a_id r =? k) (applications w')
                              = find (λ r, a_id r =? k) (applications w))
  end.
Proof.
  intros Hw Hreq Hu Hid.
  assert (Hrole : requireRole ["job_seeker"%string] req = inr u).
  { apply (requireRole_admitted _ _ u Hreq). rewrite Hu. by_decide. }
  unfold delete_application_route. rewrite Hrole. unfold_async.
  rewrite (findById_healthy_param _ i) by done.
  destruct (find _ (applications w)) as [row|] eqn:Hrow; [|done].
  cbn [fmap option_fmap option_map Application.userId Application.new].
  assert (Hrowid : a_id row = i).
  { apply find_some in Hrow as [_ Hi]. by apply Z.eqb_eq in Hi. }
  split.
  - intros Hother. by destruct (Z.eqb_spec (a_user_id row) (User.id u)).
  - intros Hown. rewrite Hown, Z.eqb_refl. cbn [negb].
    rewrite delete_healthy by done. cbn [Application.id Application.new]. rewrite Hrowid.
    eexists. split; [reflexivity|].
    replace (applications (set_applications _ w))
      with (List.filter (λ r, negb (same_id (JNum i) (a_id r))) (applications w))
      by (by destruct w).
    split; [by rewrite <- head_filter_by_id, head_filter_id_deleted|].
    intros k Hk. by apply find_other_id_deleted.
Qed.

Lemma delete_route_is_for_the_applicant_witness :
  delete_application_route (mkRequest (Some Demo.seeker) {[ "id" := JStr "2" ]} ∅) Demo.world
  = (Return (mkResponse 403 false NoData "Access denied"), Demo.world)
  ∧ ∃ w', delete_application_route (mkRequest (Some Demo.seeker) {[ "id" := JStr "1" ]} ∅) Demo.world
          = (Return (mkResponse 200 true NoData "Application deleted successfully"), w')
          ∧ find (λ r, a_id r =? 1) (applications w') = None.
Proof.
  split.
  - apply (delete_route_is_for_the_applicant
             (mkRequest (Some Demo.seeker) {[ "id" := JStr "2" ]} ∅) Demo.seeker 2 Demo.world);
      [reflexivity | reflexivity | reflexivity | reflexivity | discriminate].
  - destruct (delete_route_is_for_the_applicant
                (mkRequest (Some Demo.seeker) {[ "id" := JStr "1" ]} ∅) Demo.seeker 1 Demo.world)
      as [_ Hown]; [reflexivity | reflexivity | reflexivity | reflexivity |].
    destruct (Hown eq_refl) as (w' & Hrun & Hgone & _). exists w'. by split.
Defined.

(** X15.  What the status route refuses, and leaves the store alone
    for: a body without a status (400 'Status is required', before any
    statement is sent), an id that resolves to no application (404), and
    a status outside the five (400 with the list of the valid ones). *)
Theorem status_route_refusals req u i w :
  user req = Some u → User.userType u ∈ ["company"; "admin"]%string →
  (truthy (prop (body req) "status") = false →
     put_application_status req w = (Return (mkResponse 400 false NoData "Status is required"), w))
  ∧ (healthy w → truthy (prop (body req) "status") = true →
     sql_int (prop (params req) "id") = Some i →
     match find (λ r, a_id r =? i) (applications w) with
     | None =>
         put_application_status req w
         = (Return (mkResponse 404 false NoData "Application not found"), w)
     | Some row =>
         ¬ recognized (prop (body req) "status") →
         put_application_status req w
         = (Return (mkResponse 400 false NoData
                      "Invalid status. Must be one of: pending, reviewed, interview, accepted, rejected"),
            w)
     end).
Proof.
  intros Hreq Hu. unfold put_application_status.
  rewrite (requireRole_admitted _ _ u) by done. unfold_async. split.
  - by intros ->.
  - intros Hw -> Hid. cbn [negb]. rewrite (findById_healthy_param _ i) by done.
    destruct (find _ (applications w)) as [row|]; [|done].
    intros Hstatus. cbn [fmap option_fmap option_map].
    unfold Application.updateStatus. by rewrite includes_unrecognized.
Qed.

Lemma status_route_refusals_witness :
  put_application_status (mkRequest (Some Demo.owner_a) {[ "id" := JStr "1" ]} ∅) Demo.world
  = (Return (mkResponse 400 false NoData "Status is required"), Demo.world)
  ∧ put_application_status
      (mkRequest (Some Demo.owner_a) {[ "id" := JStr "77" ]} {[ "status" := JStr "accepted" ]})
      Demo.world
    = (Return (mkResponse 404 false NoData "Application not found"), Demo.world)
  ∧ put_application_status
      (mkRequest (Some Demo.owner_a) {[ "id" := JStr "1" ]} {[ "status" := JStr "hired" ]}) Demo.world
    = (Return (mkResponse 400 false NoData
                 "Invalid status. Must be one of: pending, reviewed, interview, accepted, rejected"),
       Demo.world).
Proof.
  assert (Hstaff : User.userType Demo.owner_a ∈ ["company"; "admin"]%string) by by_decide.
  split; [|split].
  - apply (status_route_refusals (mkRequest (Some Demo.owner_a) {[ "id" := JStr "1" ]} ∅)
             Demo.owner_a 1 Demo.world eq_refl Hstaff). reflexivity.
  - apply (status_route_refusals
             (mkRequest (Some Demo.owner_a) {[ "id" := JStr "77" ]} {[ "status" := JStr "accepted" ]})
             Demo.owner_a 77 Demo.world eq_refl Hstaff); reflexivity.
  - apply (status_route_refusals
             (mkRequest (Some Demo.owner_a) {[ "id" := JStr "1" ]} {[ "status" := JStr "hired" ]})
             Demo.owner_a 1 Demo.world eq_refl Hstaff); [reflexivity | reflexivity | reflexivity |].
    intros (s & [= <-] & Hs).
    by repeat (apply elem_of_cons in Hs as [?|Hs]; [done|]); apply elem_of_nil in Hs.
Defined.

(** X16.  Editing through the route is for the applicant alone, and only
    under the column names.  For a job seeker: an id that resolves to
    nothing gives 404; an application of somebody else gives 403 'Access
    denied'; the applicant's own application with a body that gives
    neither [cover_letter] nor [resume_url] gives 400 'No valid fields to
    update'.  In the three cases nothing is written. *)
Theorem content_route_refusals req u i w :
  healthy w →
  user req = Some u → User.userType u = "job_seeker"%string →
  sql_int (prop (params req) "id") = Some i →
  match find (λ r, a_id r =? i) (applications w) with
  | None =>
      put_application req w = (Return (mkResponse 404 false NoData "Application not found"), w)
  | Some row =>
      (a_user_id row ≠ User.id u →
         put_application req w = (Return (mkResponse 403 false NoData "Access denied"), w))
      ∧ (a_user_id row = User.id u →
         is_undefined (prop (body req) "cover_letter") = true →
         is_undefined (prop (body req) "resume_url") = true →
         put_application req w
         = (Return (mkResponse 400 false NoData "No valid fields to update"), w))
  end.
Proof.
  intros Hw Hreq Hu Hid.
  assert (Hrole : requireRole ["job_seeker"%string] req = inr u).
  { apply (requireRole_admitted _ _ u Hreq). rewrite Hu. by_decide. }
  unfold put_application. rewrite Hrole. unfold_async.
  rewrite (findById_healthy_param _ i) by done.
  destruct (find _ (applications w)) as [row|] eqn:Hrow; [|done].
  cbn [fmap option_fmap option_map Application.userId Application.new].
  split.
  - intros Hother. by destruct (Z.eqb_spec (a_user_id row) (User.id u)).
  - intros Hown Hcover Hresume. rewrite Hown, Z.eqb_refl. cbn [negb].
    by rewrite update_refused.
Qed.

Lemma content_route_refusals_witness :
  put_application (mkRequest (Some Demo.seeker) {[ "id" := JStr "2" ]}
                             {[ "cover_letter" := JStr "Not my application." ]}) Demo.world
  = (Return (mkResponse 403 false NoData "Access denied"), Demo.world)
  ∧ put_application (mkRequest (Some Demo.seeker) {[ "id" := JStr "1" ]}
                               {[ "coverLetter" := JStr "A better letter." ]}) Demo.world
    = (Return (mkResponse 400 false NoData "No valid fields to update"), Demo.world).
Proof.
  split.
  - apply (content_route_refusals
             (mkRequest (Some Demo.seeker) {[ "id" := JStr "2" ]}
                        {[ "cover_letter" := JStr "Not my application." ]})
             Demo.seeker 2 Demo.world);
      [reflexivity | reflexivity | reflexivity | reflexivity | discriminate].
  - apply (content_route_refusals
             (mkRequest (Some Demo.seeker) {[ "id" := JStr "1" ]}
                        {[ "coverLetter" := JStr "A better letter." ]})
             Demo.seeker 1 Demo.world); reflexivity.
Defined.









(** ** Deleting a company *)

Lemma elem_of_filter_bool {A} (keep : A → bool) (l : list A) (x : A) :
  x ∈ List.filter keep l ↔ x ∈ l ∧ keep x = true.
Proof. rewrite !list_elem_of_In. apply filter_In. Qed.

Lemma company_delete_healthy this w :
  healthy w →
  ∃ w', Company.delete this w = (Return true, w')
        ∧ healthy w'
        ∧ notifications w' = notifications w
        ∧ (∀ c, c ∈ companies w' ↔ c ∈ companies w ∧ c_id c ≠ Company.id this)
        ∧ (∀ jo, jo ∈ job_offers w'
                 ↔ jo ∈ job_offers w
                   ∧ ¬ ∃ c, c ∈ companies w ∧ c_id c = Company.id this
                            ∧ c_id c = jo_company_id jo)
        ∧ (∀ a, a ∈ applications w'
                ↔ a ∈ applications w
                  ∧ ¬ ∃ jo c, jo ∈ job_offers w ∧ jo_id jo = a_job_offer_id a
                              ∧ c ∈ companies w ∧ c_id c = Company.id this
                              ∧ c_id c = jo_company_id jo).
Proof.
  intros Hw. unfold Company.delete, delete_company. unfold_async.
  rewrite execute_healthy by done. eexists. split; [reflexivity|].
  split; [by destruct w|]. split; [done|]. cbn [companies job_offers applications].
  assert (Hjob : ∀ jo,
    existsb (λ c, same_id (JNum (Company.id this)) (c_id c) && (c_id c =? jo_company_id jo))
            (companies w) = true
    ↔ ∃ c, c ∈ companies w ∧ c_id c = Company.id this ∧ c_id c = jo_company_id jo).
  { intros jo. rewrite existsb_exists. unfold same_id, sql_int.
    split; intros (c & Hc & Hp); exists c.
    - apply andb_true_iff in Hp as [Hid%Z.eqb_eq Hjo%Z.eqb_eq].
      split; [by apply list_elem_of_In | by split].
    - destruct Hp as [Hid Hjo]. split; [by apply list_elem_of_In|].
      apply andb_true_iff. split; apply Z.eqb_eq; congruence. }
  split; [|split].
  - intros c. rewrite elem_of_filter_bool. unfold same_id, sql_int.
    rewrite negb_true_iff, Z.eqb_neq. split; intros [? ?]; (split; [done | congruence]).
  - intros jo. rewrite elem_of_filter_bool, negb_true_iff, <- not_true_iff_false, Hjob. done.
  - intros a. rewrite elem_of_filter_bool, negb_true_iff, <- not_true_iff_false.
    rewrite existsb_exists. split; intros [Ha Hnot]; (split; [done|]).
    + intros (jo & c & Hjo & Hid & Hc). apply Hnot. exists jo.
      split; [by apply list_elem_of_In|]. apply andb_true_iff.
      split; [apply Hjob; by exists c | by apply Z.eqb_eq].
    + intros (jo & Hjo & Hp). apply andb_true_iff in Hp as [(c & Hc)%Hjob Hid%Z.eqb_eq].
      apply Hnot. exists jo, c. split; [by apply list_elem_of_In | by split].
Qed.

(** X20.  Deleting a company takes its job offers and the applications
    to them along, and nothing else: the other companies, their job
    offers, the applications to those and all notifications stay, and
    afterwards every application still has its job offer and every job
    offer its company. *)
Theorem company_delete_cascades this w :
  healthy w →
  referential_integrity w →
  ∃ w', Company.delete this w = (Return true, w')
        ∧ referential_integrity w'
        ∧ (∀ c, c ∈ companies w' ↔ c ∈ companies w ∧ c_id c ≠ Company.id this)
        ∧ (∀ jo, jo ∈ job_offers w' ↔ jo ∈ job_offers w ∧ jo_company_id jo ≠ Company.id this)
        ∧ (∀ a, a ∈ applications w'
                ↔ a ∈ applications w
                  ∧ ∀ jo, jo ∈ job_offers w → jo_id jo = a_job_offer_id a →
                          jo_company_id jo ≠ Company.id this)
        ∧ notifications w' = notifications w.
Proof.
  intros Hw [Happs Hjobs].
  destruct (company_delete_healthy this w Hw) as (w' & Hrun & _ & Hnot & Hc & Hjo & Ha).
  assert (Hjo' : ∀ jo, jo ∈ job_offers w'
                       ↔ jo ∈ job_offers w ∧ jo_company_id jo ≠ Company.id this).
  { intros jo. rewrite Hjo. split; intros [Hin Hother]; (split; [done|]).
    - intros Heq. destruct (Hjobs jo Hin) as (c & Hcin & Hcid). apply Hother.
      exists c. split; [done|]. split; congruence.
    - intros (c & _ & Hid & Hcid). congruence. }
  assert (Ha' : ∀ a, a ∈ applications w'
                     ↔ a ∈ applications w
                       ∧ ∀ jo, jo ∈ job_offers w → jo_id jo = a_job_offer_id a →
                               jo_company_id jo ≠ Company.id this).
  { intros a. rewrite Ha. split; intros [Hin Hother]; (split; [done|]).
    - intros jo Hjoin Hid Heq. destruct (Hjobs jo Hjoin) as (c & Hcin & Hcid). apply Hother.
      exists jo, c. repeat split; congruence.
    - intros (jo & c & Hjoin & Hid & _ & Hcid & Hcjo). apply (Hother jo Hjoin Hid). congruence. }
  exists w'. split; [done|].
  split; [|split; [exact Hc | split; [exact Hjo' | split; [exact Ha' | exact Hnot]]]].
  split.
  - intros a [Hin Hother]%Ha'. destruct (Happs a Hin) as (jo & Hjoin & Hid).
    exists jo. split; [|done]. apply Hjo'. split; [done | by apply Hother].
  - intros jo [Hin Hother]%Hjo'. destruct (Hjobs jo Hin) as (c & Hcin & Hcid).
    exists c. split; [|done]. apply Hc. split; [done | congruence].
Qed.

Lemma demo_referential_integrity : referential_integrity Demo.world.
Proof.
  split.
  - intros a Ha. exists (mkJobOffer 100 10). unfold Demo.world in *. simpl in *.
    split; [apply list_elem_of_here|].
    repeat (apply elem_of_cons in Ha as [->|Ha]; [done|]). by apply elem_of_nil in Ha.
  - intros jo Hjo. unfold Demo.world in *. simpl in *.
    apply elem_of_cons in Hjo as [->|Hjo]; [exists (mkCompany 10 1); split; [apply list_elem_of_here | done]|].
    apply elem_of_cons in Hjo as [->|Hjo]; [|by apply elem_of_nil in Hjo].
    exists (mkCompany 20 2). split; [|done]. apply list_elem_of_further, list_elem_of_here.
Qed.

Lemma company_delete_cascades_witness :
  Company.delete (Company.mk 10 1) Demo.world
  = (Return true,
     mkWorld [mkCompany 20 2] [mkJobOffer 200 20] [] [] 3 1000 [] [])
  ∧ ∃ w', Company.delete (Company.mk 20 2) Demo.world = (Return true, w')
          ∧ referential_integrity w'
          ∧ (Demo.pending_row ∈ applications w' ∧ Demo.accepted_row ∈ applications w').
Proof.
  split; [reflexivity|].
  destruct (company_delete_cascades (Company.mk 20 2) Demo.world)
    as (w' & Hrun & Hintegrity & _ & _ & Ha & _); [reflexivity | exact demo_referential_integrity |].
  exists w'. split; [exact Hrun|]. split; [exact Hintegrity|].
  split; apply Ha;
    (split; [first [apply list_elem_of_here | apply list_elem_of_further, list_elem_of_here]|]);
    intros jo Hjo Hid; unfold Demo.world in Hjo; simpl in Hjo.
  all: repeat (apply elem_of_cons in Hjo as [->|Hjo]; [by (simpl in *; discriminate)|]).
  all: by apply elem_of_nil in Hjo.
Defined.

Lemma company_findById_healthy_param id i w :
  healthy w → sql_int id = Some i →
  Company.findById id w
  = (Return (Company.new <$> find (λ c, c_id c =? i) (companies w)), w).
Proof.
  intros Hw Hid. unfold Company.findById, select_company_by_id. unfold_async.
  rewrite execute_healthy by (simpl; by rewrite ?(sql_int_defined id i)).
  do 3 f_equal. induction (companies w) as [|c cs IH]; [done|]. simpl.
  unfold same_id at 1. rewrite Hid, (Z.eqb_sym i). by destruct (c_id c =? i).
Qed.

(** X21.  The route that deletes a company lets every company user and
    every administrator delete any company, the user's own or not: its
    ownership test reads [req.user.role], which the users the [auth]
    middleware loads do not have, so the answer 'Access denied' is never
    given.  The company is gone afterwards; an id that resolves to no
    company gives 404. *)
Theorem company_route_deletes_for_any_company_user req u i w :
  healthy w →
  user req = Some u → User.userType u ∈ ["company"; "admin"]%string →
  sql_int (prop (params req) "id") = Some i →
  match find (λ c, c_id c =? i) (companies w) with
  | None =>
      delete_company_route req w = (Return (mkResponse 404 false NoData "Company not found"), w)
  | Some company =>
      ∃ w', delete_company_route req w
            = (Return (mkResponse 200 true NoData "Company deleted successfully"), w')
            ∧ find (λ c, c_id c =? i) (companies w') = None
  end.
Proof.
  intros Hw Hreq Hu Hid. unfold delete_company_route.
  rewrite (requireRole_admitted _ _ u) by done. unfold_async.
  rewrite (company_findById_healthy_param _ i) by done.
  destruct (find _ (companies w)) as [company|] eqn:Hcompany; [|done].
  cbn [fmap option_fmap option_map user_role strict_equals_string andb].
  destruct (company_delete_healthy (Company.new company) w Hw) as (w' & -> & _ & _ & Hc & _).
  exists w'. split; [done|].
  destruct (find _ (companies w')) as [c|] eqn:Hfind; [|done].
  apply find_some in Hfind as [Hin Hi]. apply Z.eqb_eq in Hi.
  apply list_elem_of_In, Hc in Hin as [_ Hne]. destruct Hne.
  apply find_some in Hcompany as [_ Hi']. apply Z.eqb_eq in Hi'. simpl. congruence.
Qed.

Lemma company_route_deletes_for_any_company_user_witness :
  c_user_id (mkCompany 10 1) ≠ User.id Demo.owner_b
  ∧ ∃ w', delete_company_route (mkRequest (Some Demo.owner_b) {[ "id" := JStr "10" ]} ∅) Demo.world
          = (Return (mkResponse 200 true NoData "Company deleted successfully"), w')
          ∧ find (λ c, c_id c =? 10) (companies w') = None.
Proof.
  split; [discriminate|].
  apply (company_route_deletes_for_any_company_user
           (mkRequest (Some Demo.owner_b) {[ "id" := JStr "10" ]} ∅) Demo.owner_b 10 Demo.world);
    [reflexivity | reflexivity | by_decide | reflexivity].
Defined.

(** ** One application at a time *)

Lemma rows_of_other_ids_stay i (g : ApplicationRow → ApplicationRow) rows :
  (∀ r, a_id (g r) = a_id r) →
  ∀ k, k ≠ i →
       find (λ r, a_id r =? k) (map (λ r, if same_id (JNum i) (a_id r) then g r else r) rows)
       = find (λ r, a_id r =? k) rows.
Proof.
  intros Hg k Hk. induction rows as [|r rows IH]; [done|]. simpl.
  destruct (same_id (JNum i) (a_id r)) eqn:E.
  - rewrite Hg, IH. unfold same_id, sql_int in E. apply Z.eqb_eq in E.
    destruct (Z.eqb_spec (a_id r) k); [congruence | done].
  - by rewrite IH.
Qed.

Lemma updateStatus_rows this newStatus updatedBy w o w' :
  Application.updateStatus this newStatus updatedBy w = (o, w') →
  applications w' = applications w
  ∨ ∃ s t, applications w'
           = map (λ r, if same_id (JNum (Application.id this)) (a_id r) then with_status s t r else r)
                 (applications w).
Proof.
  unfold Application.updateStatus.
  destruct (includes _ newStatus) as [s|]; [|intros [= _ <-]; by left].
  unfold_async. unfold update_application_status.
  destruct (execute_frame [JStr s; JNum (Application.id this)]
              (λ w, (Return (),
                     set_applications
                       (map (λ r, if same_id (JNum (Application.id this)) (a_id r)
                                  then with_status s (now w) r else r)) w)) w)
    as [(msg & w1 & -> & Hw1) | (v & -> & Hv)].
  { intros [= _ <-]. left. by destruct Hw1. }
  set (v' := set_applications _ v).
  assert (Hrows : applications v'
                  = map (λ r, if same_id (JNum (Application.id this)) (a_id r)
                              then with_status s (now v) r else r) (applications w)).
  { destruct Hv as (<- & _). by destruct v. }
  destruct (truthy updatedBy).
  - destruct (Application.createStatusNotification _ s updatedBy v') as [[[]|e] w2] eqn:F;
      apply createStatusNotification_frame in F as (F & _); intros [= _ <-];
      right; exists s, (now v); congruence.
  - intros [= _ <-]. right. by exists s, (now v).
Qed.

Lemma update_rows this updateData w o w' :
  Application.update this updateData w = (o, w') →
  applications w' = applications w
  ∨ ∃ updates t, applications w'
                 = map (λ r, if same_id (JNum (Application.id this)) (a_id r)
                             then with_columns updates t r else r)
                       (applications w).
Proof.
  unfold Application.update.
  destruct (Application.kept_entries updateData) as [|update updates];
    [intros [= _ <-]; by left|].
  unfold_async. unfold update_application_columns.
  set (all := update :: updates).
  destruct (execute_frame (map snd all ++ [JNum (Application.id this)])
              (λ w, if forallb (λ u, String.eqb u.1 "cover_letter" || String.eqb u.1 "resume_url") all
                    then (Return (),
                          set_applications
                            (map (λ r, if same_id (JNum (Application.id this)) (a_id r)
                                       then with_columns all (now w) r else r)) w)
                    else (Throw ER_BAD_FIELD, w)) w)
    as [(msg & w1 & -> & Hw1) | (v & -> & Hv)].
  { intros [= _ <-]. left. by destruct Hw1. }
  destruct (forallb _ all); [|intros [= _ <-]; left; by destruct Hv].
  set (v' := set_applications _ v).
  assert (Hrows : applications v'
                  = map (λ r, if same_id (JNum (Application.id this)) (a_id r)
                              then with_columns all (now v) r else r) (applications w)).
  { destruct Hv as (<- & _). by destruct v. }
  destruct (Application.findById _ v') as [[a|e] w2] eqn:F; apply findById_frame in F as (F & _);
    intros [= _ <-]; right; exists all, (now v); congruence.
Qed.

(** X22.  A status update and a content update reach the application of
    their id and no other: whatever the arguments and whatever the store
    does, every application with another id is stored afterwards exactly
    as it was before, and no application is added or removed. *)
Theorem updates_touch_one_application this w :
  (∀ newStatus updatedBy o w',
      Application.updateStatus this newStatus updatedBy w = (o, w') →
      length (applications w') = length (applications w)
      ∧ ∀ k, k ≠ Application.id this →
             find (λ r, a_id r =? k) (applications w') = find (λ r, a_id r =? k) (applications w))
  ∧ (∀ updateData o w',
      Application.update this updateData w = (o, w') →
      length (applications w') = length (applications w)
      ∧ ∀ k, k ≠ Application.id this →
             find (λ r, a_id r =? k) (applications w') = find (λ r, a_id r =? k) (applications w)).
Proof.
  split.
  - intros newStatus updatedBy o w' [-> | (s & t & ->)]%updateStatus_rows; [done|].
    split; [apply length_map|]. intros k Hk. by apply rows_of_other_ids_stay.
  - intros updateData o w' [-> | (updates & t & ->)]%update_rows; [done|].
    split; [apply length_map|]. intros k Hk. apply rows_of_other_ids_stay; [|done].
    intros r. by destruct (with_columns_keeps_identity updates t (λ _, true) r).
Qed.

Lemma updates_touch_one_application_witness :
  let run := Application.updateStatus (Application.new Demo.pending_row) (JStr "rejected") (JNum 1)
                                      Demo.world in
  length (applications run.2) = 2%nat
  ∧ find (λ r, a_id r =? 2) (applications run.2) = Some Demo.accepted_row.
Proof.
  intros run.
  destruct (updates_touch_one_application (Application.new Demo.pending_row) Demo.world)
    as [Hstatus _].
  destruct (Hstatus (JStr "rejected") (JNum 1) run.1 run.2) as [Hlength Hothers]; [reflexivity|].
  split; [exact Hlength|]. rewrite (Hothers 2); [reflexivity | discriminate].
Defined.
